(** * Restaurant radius matching: a shallow embedding of [src/processor.py]

    The development follows [RestaurantProcessor] method by method:
    [is_open], [process_user_batch] and [find_available_restaurants].

    Modelling conventions.
    - Double-precision values (the columns as they are read, the
      arithmetic inside scikit-learn) are idealised as real numbers ([R]).
      Single precision is not: every cast to [np.float32] and every result
      of an operation on float32 values is rounded, through the class
      [arithmetic].  Its instance [ieee_single] rounds to the nearest
      binary32 number, ties to even, subnormal numbers included.  NumPy's
      float32 [sin], [cos] and [arcsin] are not specified to the last bit:
      all that is assumed of them is [sin 0 = 0], [arcsin 0 = 0] and
      [0 <= arcsin x] for [0 <= x <= 1].  Overflow to an infinity is not
      modelled, and [-0.0] is [0].
    - A missing (NaN) restaurant coordinate is [None] in the type [float];
      NaN propagates through arithmetic and every comparison with NaN is
      false, as in NumPy.
    - User coordinates and radii are finite numbers, as the matcher
      requires of its input.
    - Python exceptions are explicit: fallible code returns [result].
    - The libraries the processor calls (datetime, NumPy, pandas, joblib,
      scikit-learn's [BallTree]) are modelled by their documented behaviour
      on the values the processor hands them; the index returns, for every
      query point, the indexed points within the query radius. *)

From Stdlib Require Import Reals Lra Lia String Ascii Bool Arith ZArith.
From Stdlib Require Import DecimalString RList OrderedTypeEx.
From Stdlib Require Import List Permutation Sorted.
Import ListNotations.

(** ** Python values and exceptions *)

Module py.

Inductive exn : Set :=
| ValueError
| TypeError.

Inductive result (A : Type) : Type :=
| Ok (a : A)
| Raise (e : exn).

Arguments Ok {A} a.
Arguments Raise {A} e.

Definition bind {A B : Type} (m : result A) (k : A -> result B) : result B :=
  match m with
  | Ok a => k a
  | Raise e => Raise e
  end.

(** [try: body  except: handler] with a bare [except], which catches every
    exception. *)
Definition try_except {A : Type} (body : result A) (handler : exn -> result A)
  : result A :=
  match body with
  | Ok a => Ok a
  | Raise e => handler e
  end.

(** A cell of a table read from CSV: text, or the float NaN pandas puts
    where the cell is empty. *)
Inductive obj : Set :=
| Str (s : string)
| NaN.

(** [range(start, stop, step)] for a positive step.  The fuel [stop] is
    enough, since every element is below [stop] and the step is positive. *)
Fixpoint range_from (fuel start stop step : nat) : list nat :=
  match fuel with
  | O => []
  | S fuel' =>
      if start <? stop then start :: range_from fuel' (start + step) stop step
      else []
  end.

Definition range (start stop step : nat) : list nat :=
  range_from stop start stop step.

(** [l[i:j]] *)
Definition slice {A : Type} (l : list A) (i j : nat) : list A :=
  firstn (j - i) (skipn i l).

(** [enumerate(l)] *)
Definition enumerate {A : Type} (l : list A) : list (nat * A) :=
  combine (seq 0 (length l)) l.

(** [sep.join(l)] *)
Fixpoint join (sep : string) (l : list string) : string :=
  match l with
  | [] => EmptyString
  | [s] => s
  | s :: rest => (s ++ sep ++ join sep rest)%string
  end.

End py.

Import py.

Notation "x <- m ;; k" := (bind m (fun x => k))
  (at level 61, m at next level, right associativity).

(** ** [datetime]: times of day and [strptime(_, "%H:%M:%S").time()] *)

Module datetime.

Record time : Set := mk_time {
  hour : nat;
  minute : nat;
  second : nat;
  microsecond : nat
}.

(** [time] objects without a time zone compare as the tuples
    (hour, minute, second, microsecond). *)
Definition compare (a b : time) : comparison :=
  match Nat.compare (hour a) (hour b) with
  | Eq =>
      match Nat.compare (minute a) (minute b) with
      | Eq =>
          match Nat.compare (second a) (second b) with
          | Eq => Nat.compare (microsecond a) (microsecond b)
          | c => c
          end
      | c => c
      end
  | c => c
  end.

Definition ltb (a b : time) : bool :=
  match compare a b with Lt => true | _ => false end.

Definition leb (a b : time) : bool :=
  match compare a b with Gt => false | _ => true end.

Definition geb (a b : time) : bool := leb b a.

Definition is_digit (c : ascii) : bool :=
  (48 <=? nat_of_ascii c) && (nat_of_ascii c <=? 57).

Definition digit (c : ascii) : nat := nat_of_ascii c - 48.

Definition in_range (lo hi : nat) (c : ascii) : bool :=
  is_digit c && (lo <=? digit c) && (digit c <=? hi).

(** A directive of the format: the two-digit alternatives of its regular
    expression are tried first, then the single digit [\d]. *)
Definition directive (two : ascii -> ascii -> bool) (s : list ascii)
  : option (nat * list ascii) :=
  match s with
  | c1 :: c2 :: rest =>
      if two c1 c2 then Some (10 * digit c1 + digit c2, rest)
      else if is_digit c1 then Some (digit c1, c2 :: rest)
      else None
  | [c1] => if is_digit c1 then Some (digit c1, []) else None
  | [] => None
  end.

(** [%H]: [2[0-3]|[0-1]\d|\d] *)
Definition two_H (c1 c2 : ascii) : bool :=
  (in_range 2 2 c1 && in_range 0 3 c2) || (in_range 0 1 c1 && is_digit c2).

(** [%M]: [[0-5]\d|\d] *)
Definition two_M (c1 c2 : ascii) : bool :=
  in_range 0 5 c1 && is_digit c2.

(** [%S]: [6[0-1]|[0-5]\d|\d] *)
Definition two_S (c1 c2 : ascii) : bool :=
  (in_range 6 6 c1 && in_range 0 1 c2) || (in_range 0 5 c1 && is_digit c2).

Definition colon (s : list ascii) : option (list ascii) :=
  match s with
  | ":"%char :: rest => Some rest
  | _ => None
  end.

(** The match of the compiled format against the text: three directives
    separated by colons, and no unconverted data left. *)
Definition match_HMS (s : list ascii) : option (nat * nat * nat) :=
  match directive two_H s with
  | None => None
  | Some (h, s1) =>
      match colon s1 with
      | None => None
      | Some s2 =>
          match directive two_M s2 with
          | None => None
          | Some (m, s3) =>
              match colon s3 with
              | None => None
              | Some s4 =>
                  match directive two_S s4 with
                  | Some (sec, []) => Some (h, m, sec)
                  | _ => None
                  end
              end
          end
      end
  end.

(** [datetime.strptime(v, "%H:%M:%S").time()].  A value that is not text is
    a [TypeError]; text that does not match the format is a [ValueError];
    so is a second of 60 or 61, which the format accepts and the [datetime]
    constructor refuses. *)
Definition strptime_time (v : obj) : result time :=
  match v with
  | NaN => Raise TypeError
  | Str s =>
      match match_HMS (list_ascii_of_string s) with
      | None => Raise ValueError
      | Some (h, m, sec) =>
          if sec <=? 59 then Ok (mk_time h m sec 0) else Raise ValueError
      end
  end.

End datetime.

(** ** The restaurant catalog *)

(** NumPy float with NaN. *)
Definition float : Type := option R.

(** A restaurant identifier: an integer or text column value. *)
Inductive ident : Set :=
| IntId (z : Z)
| StrId (s : string).

Record restaurant : Type := mk_restaurant {
  id : ident;
  latitude : float;
  longitude : float;
  availability_radius : R;
  open_hour : obj;
  close_hour : obj
}.

(** ** [RestaurantProcessor.is_open] *)

Definition is_open (row : restaurant) (current_time : datetime.time)
  : result bool :=
  try_except
    (open_time <- datetime.strptime_time (open_hour row) ;;
     close_time <- datetime.strptime_time (close_hour row) ;;
     if datetime.ltb open_time close_time then
       Ok (datetime.leb open_time current_time
           && datetime.leb current_time close_time)
     else
       Ok (datetime.geb current_time open_time
           || datetime.leb current_time close_time))
    (fun _ => Ok false).

(** ** Single precision *)

(** The binary32 format: 24 bits of precision, the last place of a
    subnormal number at [2^-149]. *)
Module binary32.

Definition prec : Z := 24.

Definition emin : Z := (-149).

Definition bpow (e : Z) : R := powerRZ 2 e.

(** The exponent [k] with [2^(k-1) <= |x| < 2^k], for [x <> 0]. *)
Definition mag (x : R) : Z := (Zfloor (ln (Rabs x) / ln 2) + 1)%Z.

(** The exponent of the last place of the binary32 numbers around [x]. *)
Definition ulp_exp (x : R) : Z := Z.max (mag x - prec) emin.

(** The nearest integer, the even one of the two when [x] is half-way. *)
Definition nearest_even (x : R) : Z :=
  let f := Zfloor x in
  if Rlt_dec (x - IZR f) (/ 2) then f
  else if Rlt_dec (/ 2) (x - IZR f) then (f + 1)%Z
  else if Z.even f then f else (f + 1)%Z.

(** The binary32 number nearest to [x]. *)
Definition round (x : R) : R :=
  (IZR (nearest_even (x * bpow (- ulp_exp x))) * bpow (ulp_exp x))%R.

End binary32.

(** The single-precision arithmetic of the platform: [fl] is the rounding
    to float32, of a cast and of the exact result of an addition,
    subtraction, multiplication, division or square root (IEEE 754);
    [sinf], [cosf] and [asinf] are the float32 [np.sin], [np.cos] and
    [np.arcsin]. *)
Class arithmetic : Type := {
  fl : R -> R;
  sinf : R -> R;
  cosf : R -> R;
  asinf : R -> R;
  fl_0 : fl 0%R = 0%R;
  fl_mono : forall x y : R, (x <= y)%R -> (fl x <= fl y)%R;
  fl_idem : forall x : R, fl (fl x) = fl x;
  sinf_0 : sinf 0%R = 0%R;
  asinf_0 : asinf 0%R = 0%R;
  asinf_nonneg : forall x : R, (0 <= x <= 1)%R -> (0 <= asinf x)%R
}.

(** ** NumPy *)

Module np.

(** [x.astype(np.float32)] and [to_numpy(dtype=np.float32)] on a number. *)
Definition astype_float32 {m : arithmetic} (x : R) : R := fl x.

(** The same cast on a value that may be NaN: NaN stays NaN. *)
Definition astype_float32_nan {m : arithmetic} (x : float) : float :=
  option_map fl x.

(** The cast on an array of coordinate rows. *)
Definition astype_float32_rows {m : arithmetic} (arr : list (float * float))
  : list (float * float) :=
  map (fun p => (astype_float32_nan (fst p), astype_float32_nan (snd p))) arr.

(** The operators and functions on float32 operands: the result is a
    float32. *)
Definition subtract {m : arithmetic} (x y : R) : R := fl (x - y).

Definition add {m : arithmetic} (x y : R) : R := fl (x + y).

Definition multiply {m : arithmetic} (x y : R) : R := fl (x * y).

Definition divide {m : arithmetic} (x y : R) : R := fl (x / y).

(** [x ** 2] *)
Definition square {m : arithmetic} (x : R) : R := fl (x * x).

Definition sqrt {m : arithmetic} (x : R) : R := fl (R_sqrt.sqrt x).

Definition sin {m : arithmetic} (x : R) : R := sinf x.

Definition cos {m : arithmetic} (x : R) : R := cosf x.

Definition arcsin {m : arithmetic} (x : R) : R := asinf x.

(** The float32 constant [NPY_PIf / 180.0f] of [np.radians]. *)
Definition DEG2RAD {m : arithmetic} : R := fl (fl PI / 180).

(** [np.radians] on a float32 *)
Definition radians {m : arithmetic} (x : R) : R := fl (x * DEG2RAD).

(** [np.clip(x, lo, hi)] *)
Definition clip (x lo hi : R) : R := Rmin (Rmax x lo) hi.

Definition Rleb (x y : R) : bool := if Rle_dec x y then true else false.

(** [c <= r] where [c] may be NaN: a comparison with NaN is false. *)
Definition le (c : float) (r : R) : bool :=
  match c with
  | Some x => Rleb x r
  | None => false
  end.

(** [arr[indices]] for an integer index array. *)
Definition take {A : Type} (arr : list A) (indices : list nat) (d : A)
  : list A :=
  map (fun j => nth j arr d) indices.

(** [arr[mask]] for a boolean mask. *)
Definition select {A : Type} (arr : list A) (mask : list bool) : list A :=
  map fst (filter snd (combine arr mask)).

(** [arr.max()] *)
Definition max (arr : list R) : R := MaxRlist arr.

(** [str(i)], as [astype(str)] does on every element. *)
Definition astype_str (i : ident) : string :=
  match i with
  | IntId z => NilZero.string_of_int (Z.to_int z)
  | StrId s => s
  end.

Fixpoint insert (s : string) (l : list string) : list string :=
  match l with
  | [] => [s]
  | x :: rest => if String.leb s x then s :: l else x :: insert s rest
  end.

(** [np.sort] on an array of strings: the ascending rearrangement in the
    code-point order of the strings. *)
Fixpoint sort (l : list string) : list string :=
  match l with
  | [] => []
  | x :: rest => insert x (sort rest)
  end.

End np.

(** ** scikit-learn's [BallTree] with [metric='haversine'] *)

Module sklearn.

(** The haversine metric of [sklearn.metrics.DistanceMetric], which
    computes in double precision. *)
Definition haversine (x1 x2 : R * R) : R :=
  let sin_0 := sin (0.5 * (fst x1 - fst x2))%R in
  let sin_1 := sin (0.5 * (snd x1 - snd x2))%R in
  2 * asin (sqrt (sin_0 * sin_0
                  + cos (fst x1) * cos (fst x2) * sin_1 * sin_1)).

Record BallTree : Type := mk_tree { data : list (float * float) }.

Definition dist (x : R * R) (p : float * float) : float :=
  match p with
  | (Some lat, Some lon) => Some (haversine x (lat, lon))
  | _ => None
  end.

(** The neighbours of one query point: the indices of the indexed points
    within distance [r], here in ascending order. *)
Definition query_radius_single (tree : BallTree) (x : R * R) (r : R)
  : list nat :=
  filter (fun j => np.le (dist x (nth j (data tree) (None, None))) r)
         (seq 0 (length (data tree))).

(** [tree.query_radius(X, r)]: one index array per row of [X]. *)
Definition query_radius (tree : BallTree) (X : list (R * R)) (r : R)
  : list (list nat) :=
  map (fun x => query_radius_single tree x r) X.

End sklearn.

(** [joblib.Parallel] over the delayed calls of [f] on every task: the
    list of the results, in the order of the tasks. *)
Definition Parallel {A B : Type} (f : A -> B) (tasks : list A) : list B :=
  map f tasks.

(** ** Users and result rows *)

Record user : Type := mk_user { USER_LATITUDE : R; USER_LONGITUDE : R }.

Record result_row : Type := mk_row {
  User_latitude : R;
  User_Longitude : R;
  Available_restaurant_count : nat;
  Restaurant_Ids : string
}.

Record DataFrame : Type := mk_frame {
  columns : list string;
  rows : list result_row
}.

Definition EARTH_RADIUS_KM : R := 6371.

(** ** [RestaurantProcessor.process_user_batch] *)

(** Lines 64-67 for one candidate row: the haversine angular distance from
    the user to the candidate, every operation in single precision. *)
Definition exact_distance {m : arithmetic} (user_coord : R * R)
  (candidate : float * float) : float :=
  match candidate with
  | (Some lat, Some lon) =>
      let dlat := np.subtract lat (fst user_coord) in
      let dlon := np.subtract lon (snd user_coord) in
      let a :=
        np.add (np.square (np.sin (np.divide dlat 2)))
               (np.multiply
                  (np.multiply (np.cos (fst user_coord)) (np.cos lat))
                  (np.square (np.sin (np.divide dlon 2)))) in
      Some (np.multiply 2 (np.arcsin (np.clip (np.sqrt a) 0 1)))
  | _ => None
  end.

(** The body of the loop over [enumerate(indices_list)]. *)
Definition batch_row {m : arithmetic} (user_coords_batch : list (R * R))
  (lat_batch lon_batch : list R) (open_coords : list (float * float))
  (open_ids : list ident) (open_radii : list R)
  (i : nat) (indices : list nat) : result_row :=
  let user_coord := nth i user_coords_batch (0, 0)%R in
  let candidates :=
    np.astype_float32_rows (np.take open_coords indices (None, None)) in
  let candidate_radii :=
    map np.astype_float32 (np.take open_radii indices 0%R) in
  let candidate_ids := np.take open_ids indices (IntId 0) in
  let c := map (exact_distance user_coord) candidates in
  let mask := map (fun cr => np.le (fst cr) (snd cr))
                  (combine c candidate_radii) in
  let matched_ids := map np.astype_str (np.select candidate_ids mask) in
  mk_row (nth i lat_batch 0%R) (nth i lon_batch 0%R) (length matched_ids)
         (match matched_ids with
          | [] => EmptyString
          | _ => join ";" (np.sort matched_ids)
          end).

Definition process_user_batch {m : arithmetic}
  (user_coords_batch : list (R * R))
  (lat_batch lon_batch : list R) (open_coords : list (float * float))
  (open_ids : list ident) (open_radii : list R) : list result_row :=
  let tree := sklearn.mk_tree open_coords in
  let indices_list :=
    sklearn.query_radius tree user_coords_batch (np.max open_radii) in
  map (fun e => batch_row user_coords_batch lat_batch lon_batch
                  open_coords open_ids open_radii (fst e) (snd e))
      (enumerate indices_list).

(** ** [RestaurantProcessor.find_available_restaurants] *)

Definition user_coords {m : arithmetic} (users_df : list user)
  : list (R * R) :=
  map (fun u => (np.radians (np.astype_float32 (USER_LATITUDE u)),
                 np.radians (np.astype_float32 (USER_LONGITUDE u))))
      users_df.

(** [dropna(subset=['latitude', 'longitude'])] *)
Definition dropna (restaurants_df : list restaurant) : list restaurant :=
  filter (fun r => match latitude r, longitude r with
                   | Some _, Some _ => true
                   | _, _ => false
                   end)
         restaurants_df.

(** The derived columns [lat_rad] and [lon_rad]. *)
Definition lat_rad {m : arithmetic} (r : restaurant) : float :=
  option_map np.radians (np.astype_float32_nan (latitude r)).

Definition lon_rad {m : arithmetic} (r : restaurant) : float :=
  option_map np.radians (np.astype_float32_nan (longitude r)).

(** [df.apply(f, axis=1)]: [f] on every row, stopping at the first
    exception. *)
Fixpoint apply_rows {A : Type} (f : A -> result bool) (df : list A)
  : result (list bool) :=
  match df with
  | [] => Ok []
  | row :: rest =>
      b <- f row ;;
      bs <- apply_rows f rest ;;
      Ok (b :: bs)
  end.

Definition open_coords {m : arithmetic} (restaurants_df : list restaurant)
  : list (float * float) :=
  map (fun r => (np.astype_float32_nan (lat_rad r),
                 np.astype_float32_nan (lon_rad r)))
      restaurants_df.

Definition open_ids (restaurants_df : list restaurant) : list ident :=
  map id restaurants_df.

Definition open_radii {m : arithmetic} (restaurants_df : list restaurant)
  : list R :=
  map (fun r => np.divide (np.astype_float32 (availability_radius r))
                          EARTH_RADIUS_KM)
      restaurants_df.

Definition batch_size : nat := 5000.

Definition batch : Type :=
  (list (R * R) * list R * list R
   * list (float * float) * list ident * list R)%type.

Definition batches (coords : list (R * R)) (lat_array lon_array : list R)
  (oc : list (float * float)) (oi : list ident) (orad : list R)
  : list batch :=
  map (fun i => (slice coords i (i + batch_size),
                 slice lat_array i (i + batch_size),
                 slice lon_array i (i + batch_size),
                 oc, oi, orad))
      (range 0 (length coords) batch_size).

Definition run_batch {m : arithmetic} (args : batch) : list result_row :=
  let '(coords, lats, lons, oc, oi, orad) := args in
  process_user_batch coords lats lons oc oi orad.

Definition result_columns : list string :=
  ["User_latitude"; "User_Longitude"; "Available_restaurant_count";
   "Restaurant_Id's"]%string.

(** What the call prints and what it returns or raises. *)
Record outcome : Type := mk_outcome {
  stdout : list string;
  returned : result DataFrame
}.

Definition find_available_restaurants {m : arithmetic}
  (static_time : string) (users_df : list user)
  (restaurants_df : list restaurant) : outcome :=
  let coords := user_coords users_df in
  let lat_array := map USER_LATITUDE users_df in
  let lon_array := map USER_LONGITUDE users_df in
  let restaurants_df := dropna restaurants_df in
  match datetime.strptime_time (Str static_time) with
  | Raise e => mk_outcome [] (Raise e)
  | Ok time_check =>
      match apply_rows (fun row => is_open row time_check) restaurants_df with
      | Raise e => mk_outcome [] (Raise e)
      | Ok mask =>
          let restaurants_df := np.select restaurants_df mask in
          match restaurants_df with
          | [] =>
              mk_outcome ["No open restaurants at given time."%string]
                         (Ok (mk_frame [] []))
          | _ :: _ =>
              let oc := open_coords restaurants_df in
              let oi := open_ids restaurants_df in
              let orad := open_radii restaurants_df in
              let all_results :=
                Parallel run_batch
                         (batches coords lat_array lon_array oc oi orad) in
              let flat_results := concat all_results in
              mk_outcome [] (Ok (mk_frame result_columns flat_results))
          end
      end
  end.

(** ** The claims' vocabulary *)

Definition time_le (a b : datetime.time) : Prop := datetime.leb a b = true.

Definition time_lt (a b : datetime.time) : Prop := datetime.ltb a b = true.

(** A field parses when [strptime] returns a time of day. *)
Definition parses (v : obj) : Prop :=
  exists x, datetime.strptime_time v = Ok x.

Definition hours (o c : string) : restaurant :=
  mk_restaurant (IntId 1) None None 0 (Str o) (Str c).

(** [is_open] as the boolean the row filter keeps. *)
Definition is_open_at (now : datetime.time) (r : restaurant) : bool :=
  match is_open r now with
  | Ok b => b
  | Raise _ => false
  end.

Definition has_coordinates (r : restaurant) : Prop :=
  latitude r <> None /\ longitude r <> None.

(** The radian coordinates of a user, as the matcher receives them. *)
Definition user_coord {m : arithmetic} (u : user) : R * R :=
  (np.radians (np.astype_float32 (USER_LATITUDE u)),
   np.radians (np.astype_float32 (USER_LONGITUDE u))).

(** *** The distances of the specification *)


(** The haversine formula: the great-circle angular distance between two
    points given by latitude and longitude in radians. *)
Definition great_circle (p q : R * R) : R :=
  (2 * asin (R_sqrt.sqrt
               (Rsqr (Rtrigo_def.sin ((fst q - fst p) / 2))
                + Rtrigo_def.cos (fst p) * Rtrigo_def.cos (fst q)
                  * Rsqr (Rtrigo_def.sin ((snd q - snd p) / 2)))))%R.



(** A coordinate in degrees as the float32 number of radians used for
    matching. *)
Definition single_radians {m : arithmetic} (deg : R) : R :=
  fl (fl deg * fl (fl PI / 180)).

Definition single_point {m : arithmetic} (lat lon : R) : R * R :=
  (single_radians lat, single_radians lon).

(** The formula of the exact refinement (section 4.2 of the
    specification) evaluated in single precision: every intermediate
    result is a float32. *)
Definition single_haversine {m : arithmetic} (p q : R * R) : R :=
  let dlat := fl (fst q - fst p) in
  let dlon := fl (snd q - snd p) in
  let s_lat := sinf (fl (dlat / 2)) in
  let s_lon := sinf (fl (dlon / 2)) in
  let a := fl (fl (s_lat * s_lat)
               + fl (fl (cosf (fst p) * cosf (fst q)) * fl (s_lon * s_lon))) in
  fl (2 * asinf (Rmin (Rmax (fl (R_sqrt.sqrt a)) 0) 1)).

(** The angular radius as a float32: the float32 radius divided by the
    Earth radius. *)
Definition single_radius {m : arithmetic} (r : restaurant) : R :=
  fl (fl (availability_radius r) / 6371).

Definition id_str (r : restaurant) : string := np.astype_str (id r).

(** The [Restaurant_Id's] field for a list of matched identifiers. *)
Definition render (ids : list string) : string :=
  match ids with
  | [] => EmptyString
  | _ => join ";" (np.sort ids)
  end.

(** The open restaurants, as line 101 leaves them. *)
Definition open_frame (now : datetime.time) (rs : list restaurant)
  : list restaurant :=
  filter (is_open_at now) (dropna rs).

(** The exact test of line 69 on a restaurant of the frame: the distance
    of lines 64-67 is within the restaurant's own radius. *)
Definition in_radius {m : arithmetic} (uc : R * R) (r : restaurant) : bool :=
  np.le (exact_distance uc (lat_rad r, lon_rad r))
        (np.astype_float32
           (np.divide (np.astype_float32 (availability_radius r))
                      EARTH_RADIUS_KM)).

(** The test of the index query on a restaurant of the frame. *)
Definition coarse {m : arithmetic} (uc : R * R) (rmax : R) (r : restaurant)
  : bool :=
  np.le (sklearn.dist uc (lat_rad r, lon_rad r)) rmax.

(** The restaurants of a frame that the loop body keeps for a user: the
    candidates of the query with the largest radius of the frame that
    pass the exact test. *)
Definition matched {m : arithmetic} (odf : list restaurant) (uc : R * R)
  (r : restaurant) : bool :=
  coarse uc (np.max (open_radii odf)) r && in_radius uc r.

(** Within reach: the restaurant is open at the query instant and the
    matcher keeps it for the user, among the open restaurants of the
    catalog. *)
Definition within_reach {m : arithmetic} (now : datetime.time)
  (rs : list restaurant) (u : user) (r : restaurant) : bool :=
  matched (open_frame now rs) (user_coord u) r && is_open_at now r.

(** The result row of one user against a frame of open restaurants. *)
Definition user_row {m : arithmetic} (odf : list restaurant) (u : user)
  : result_row :=
  let ids := map id_str (filter (matched odf (user_coord u)) odf) in
  mk_row (USER_LATITUDE u) (USER_LONGITUDE u) (length ids) (render ids).

(** The exact test of the loop body on the candidate at position [j] of
    the open-restaurant arrays. *)
Definition keeps {m : arithmetic} (uc : R * R) (oc : list (float * float))
  (orad : list R) (j : nat) : bool :=
  np.le (exact_distance uc
           (np.astype_float32_nan (fst (nth j oc (None, None))),
            np.astype_float32_nan (snd (nth j oc (None, None)))))
        (np.astype_float32 (nth j orad 0%R)).

(** The result row of one user against the shared open-restaurant arrays:
    the loop body on a batch that holds this user alone. *)
Definition matcher_row {m : arithmetic} (oc : list (float * float))
  (oi : list ident) (orad : list R) (u : user) : result_row :=
  batch_row [user_coord u] [USER_LATITUDE u] [USER_LONGITUDE u] oc oi orad 0
    (sklearn.query_radius_single (sklearn.mk_tree oc) (user_coord u)
       (np.max orad)).

(** [s.split(sep)] *)
Fixpoint split (sep : ascii) (s : string) : list string :=
  match s with
  | EmptyString => [EmptyString]
  | String c rest =>
      if Ascii.eqb c sep then EmptyString :: split sep rest
      else match split sep rest with
           | [] => [String c EmptyString]
           | w :: ws => String c w :: ws
           end
  end.

(** The identifiers a reader of the output finds in a [Restaurant_Id's]
    field: none in the empty field, else the parts between the
    semicolons. *)
Definition listed_ids (field : string) : list string :=
  match field with
  | EmptyString => []
  | _ => split ";" field
  end.

Fixpoint has_char (c : ascii) (s : string) : bool :=
  match s with
  | EmptyString => false
  | String x rest => Ascii.eqb x c || has_char c rest
  end.

(** An identifier that can be read back from the joined field: not empty
    and free of the separator. *)
Definition plain_id (s : string) : bool :=
  negb (String.eqb s EmptyString) && negb (has_char ";" s).

Definition notice : string := "No open restaurants at given time.".

(** Within reach, as the specification has it once the coordinates and
    the radius are float32 numbers: the restaurant is open at the query
    instant, has both coordinates, the haversine distance evaluated in
    single precision is at most its own angular radius, and the haversine
    distance is at most the angular radius of some open restaurant with
    coordinates (the index is queried with the largest of these radii). *)
Definition reachable {m : arithmetic} (now : datetime.time)
  (rs : list restaurant) (u : user) (r : restaurant) : Prop :=
  is_open r now = Ok true /\
  exists lat lon,
    latitude r = Some lat /\ longitude r = Some lon /\
    let p := single_point (USER_LATITUDE u) (USER_LONGITUDE u) in
    let q := single_point lat lon in
    (single_haversine p q <= single_radius r)%R /\
    exists lat' lon' r',
      In r' rs /\ is_open r' now = Ok true /\
      latitude r' = Some lat' /\ longitude r' = Some lon' /\
      (great_circle p q <= single_radius r')%R.

Definition valid_coordinates (p : float * float) : Prop :=
  fst p <> None /\ snd p <> None.

(** A missing value of a column. *)
Definition is_missing (x : float) : bool :=
  match x with
  | None => true
  | Some _ => false
  end.

(** The rows of the catalog with neither coordinate missing. *)
Definition with_coordinates (rs : list restaurant) : list restaurant :=
  filter (fun r => negb (is_missing (latitude r))
                   && negb (is_missing (longitude r))) rs.

(** The restaurants that enter the matcher: the rows with both
    coordinates that are open at the query instant. *)
Definition matcher_input (now : datetime.time) (rs : list restaurant)
  : list restaurant :=
  filter (is_open_at now) (with_coordinates rs).

(** ** The rows of the test suite *)

Definition noon : datetime.time := datetime.mk_time 12 0 0 0.

Definition user_1 : user := mk_user (-34.60) (-58.40).

Definition always_open (i : Z) (lat lon : float) (radius : R) : restaurant :=
  mk_restaurant (IntId i) lat lon radius (Str "00:00:00") (Str "23:59:59").

(** Restaurant 1 of the tests, at the coordinates of [user_1]. *)
Definition restaurant_1 (radius : R) : restaurant :=
  always_open 1 (Some (-34.60)%R) (Some (-58.40)%R) radius.



(** The user coordinates of a batch. *)
Definition batch_users (b : batch) : list (R * R) :=
  let '(coords, _, _, _, _, _) := b in coords.

(** The order [np.sort] sorts strings in. *)
Definition str_le (a b : string) : Prop := String.leb a b = true.

(** [r'] is [r] with a radius at least as large. *)
Definition wider (r r' : restaurant) : Prop :=
  id r' = id r /\ latitude r' = latitude r /\ longitude r' = longitude r /\
  open_hour r' = open_hour r /\ close_hour r' = close_hour r /\
  (availability_radius r <= availability_radius r')%R.

(** ** [os.path] on POSIX paths *)

Module ospath.

(** [s.rfind(c)]: the last index of [c], [None] for -1. *)
Fixpoint rfind (c : ascii) (s : list ascii) : option nat :=
  match s with
  | [] => None
  | x :: rest =>
      match rfind c rest with
      | Some i => Some (S i)
      | None => if Ascii.eqb x c then Some 0 else None
      end
  end.

(** The index after [s.rfind(c)]: [s.rfind(c) + 1]. *)
Definition after (i : option nat) : nat :=
  match i with
  | Some k => S k
  | None => 0
  end.

(** [os.path.basename(p)]: [p[p.rfind('/') + 1:]]. *)
Definition basename (p : string) : string :=
  let l := list_ascii_of_string p in
  string_of_list_ascii (skipn (after (rfind "/" l)) l).

(** [os.path.splitext(p)[0]]: the path up to its last dot, when the dot
    lies in the last component and a character other than a dot comes
    before it there; the whole path otherwise. *)
Definition splitext_root (p : string) : string :=
  let l := list_ascii_of_string p in
  let filenameIndex := after (rfind "/" l) in
  match rfind "." l with
  | None => p
  | Some dotIndex =>
      if (filenameIndex <=? dotIndex)
         && existsb (fun c => negb (Ascii.eqb c "."))
                    (firstn (dotIndex - filenameIndex) (skipn filenameIndex l))
      then string_of_list_ascii (firstn dotIndex l)
      else p
  end.

Definition endswith_sep (a : string) : bool :=
  match rev (list_ascii_of_string a) with
  | "/"%char :: _ => true
  | _ => false
  end.

(** [os.path.join(a, b)] *)
Definition join (a b : string) : string :=
  match b with
  | String "/" _ => b
  | _ =>
      match a with
      | EmptyString => b
      | _ => if endswith_sep a then (a ++ b)%string
             else (a ++ "/" ++ b)%string
      end
  end.

End ospath.

(** ** [BatchRunner] (src/runner.py) *)

Module runner.

(** A row of the benchmark log. *)
Record record : Type := mk_record {
  User_File : string;
  User_Count : nat;
  Time_Taken_Seconds : R;
  Memory_MB_Before : R;
  Memory_MB_After : R;
  Matched_Rows : nat;
  Total_Matches : nat;
  Output_File : string
}.

(** What a CSV file holds, as [pd.read_csv] reads it and [to_csv] writes
    it: the table, by its columns. *)
Inductive content : Type :=
| UserTable (users : list user)
| RestaurantTable (rs : list restaurant)
| ResultTable (df : DataFrame)
| BenchmarkTable (records : list record).

Inductive error : Type :=
| FileNotFoundError (path : string)
| KeyError
| ProcessorError (e : exn).

(** The runner object. *)
Record BatchRunner : Type := mk_runner {
  restaurant_file : string;
  output_dir : string;
  processor : string;
  benchmark_log : string;
  benchmark_records : list record
}.

(** The runner and its environment: the files by path, the lines printed
    on the standard output so far, and how often the clock and the memory
    gauge were read.  The directory tree is not modelled: [os.makedirs]
    succeeds and every path can be written.  The progress bar of [tqdm]
    goes to the standard error and is left out. *)
Record state : Type := mk_state {
  self : BatchRunner;
  fs : string -> option content;
  printed : list string;
  ticks : nat;
  probes : nat
}.

(** [BatchRunner(restaurant_file, output_dir, static_time, benchmark_log)] *)
Definition init (restaurant_file output_dir static_time benchmark_log : string)
  : BatchRunner :=
  mk_runner restaurant_file output_dir static_time
            (ospath.join output_dir benchmark_log) [].

(** The constructor with its default arguments. *)
Definition init_default (restaurant_file : string) : BatchRunner :=
  init restaurant_file "results" "12:00:00" "benchmark_results.csv".

Definition write (path : string) (c : content) (files : string -> option content)
  : string -> option content :=
  fun p => if String.eqb p path then Some c else files p.

(** [df.empty]: no row or no column. *)
Definition empty (df : DataFrame) : bool :=
  match rows df, columns df with
  | _ :: _, _ :: _ => false
  | _, _ => true
  end.

(** [df["Available_restaurant_count"].sum()] *)
Definition count_sum (df : DataFrame) : nat :=
  fold_right (fun row acc => Available_restaurant_count row + acc) 0
             (rows df).

(** The name of the results file of a user file. *)
Definition output_file (user_file : string) : string :=
  (ospath.splitext_root (ospath.basename user_file) ++ "_results.csv")%string.

Section Environment.

(** The readings of [time.time()] and of the resident memory, by the
    number of earlier readings; [round(x, ndigits)]; the text of a float
    in an f-string. *)
Context {m : arithmetic}.
Variable clock : nat -> R.
Variable rss : nat -> R.
Variable round : R -> nat -> R.
Variable show : R -> string.

Definition memory_mb (st : state) : R := (rss (probes st) / 1024 ^ 2)%R.

Definition tick (st : state) : state :=
  mk_state (self st) (fs st) (printed st) (S (ticks st)) (probes st).

Definition probe (st : state) : state :=
  mk_state (self st) (fs st) (printed st) (ticks st) (S (probes st)).

(** The body of the loop over the user files.  [restaurants] is the table
    read before the loop. *)
Definition process_file (st : state) (restaurants : content)
  (user_file : string) : state * option error :=
  let file_start := clock (ticks st) in
  let st := tick st in
  let memory_before := memory_mb st in
  let st := probe st in
  match fs st user_file with
  | None => (st, Some (FileNotFoundError user_file))
  | Some users =>
      match users, restaurants with
      | UserTable users_df, RestaurantTable restaurants_df =>
          let user_count := length users_df in
          let out := find_available_restaurants (processor (self st))
                       users_df restaurants_df in
          let st := mk_state (self st) (fs st) (printed st ++ stdout out)
                      (ticks st) (probes st) in
          match returned out with
          | Raise e => (st, Some (ProcessorError e))
          | Ok result_df =>
              let memory_after := memory_mb st in
              let st := probe st in
              let file_end := clock (ticks st) in
              let st := tick st in
              let match_count :=
                if negb (empty result_df) then count_sum result_df else 0 in
              let result_rows := length (rows result_df) in
              let output_file := output_file user_file in
              let files :=
                if negb (empty result_df)
                then write (ospath.join (output_dir (self st)) output_file)
                           (ResultTable result_df) (fs st)
                else fs st in
              let rec :=
                mk_record (ospath.basename user_file) user_count
                  (round (file_end - file_start) 3)
                  (round memory_before 2) (round memory_after 2)
                  result_rows match_count
                  (if negb (empty result_df) then output_file
                   else "None"%string) in
              let me := self st in
              (mk_state
                 (mk_runner (restaurant_file me) (output_dir me)
                    (processor me) (benchmark_log me)
                    (benchmark_records me ++ [rec]))
                 files (printed st) (ticks st) (probes st),
               None)
          end
      | _, _ => (st, Some KeyError)
      end
  end.

(** The loop: it stops at the first exception. *)
Fixpoint process_files (st : state) (restaurants : content)
  (user_file_paths : list string) : state * option error :=
  match user_file_paths with
  | [] => (st, None)
  | user_file :: rest =>
      match process_file st restaurants user_file with
      | (st', None) => process_files st' restaurants rest
      | failed => failed
      end
  end.

(** [BatchRunner.run] *)
Definition run (st : state) (user_file_paths : list string)
  : state * option error :=
  let total_start := clock (ticks st) in
  let st := tick st in
  match fs st (restaurant_file (self st)) with
  | None => (st, Some (FileNotFoundError (restaurant_file (self st))))
  | Some restaurants_df =>
      match process_files st restaurants_df user_file_paths with
      | (st, None) =>
          let total_end := clock (ticks st) in
          let st := tick st in
          let line1 :=
            (String (ascii_of_nat 10) "Total time: "
             ++ show (round (total_end - total_start) 2) ++ "s")%string in
          let files :=
            write (benchmark_log (self st))
                  (BenchmarkTable (benchmark_records (self st))) (fs st) in
          let line2 :=
            ("Benchmark log saved to: " ++ benchmark_log (self st))%string in
          (mk_state (self st) files (printed st ++ [line1; line2])
                    (ticks st) (probes st),
           None)
      | failed => failed
      end
  end.

End Environment.

End runner.

(** ** A small run for the examples *)

Definition demo_files : string -> option runner.content :=
  fun p =>
    if String.eqb p "restaurants.csv"
    then Some (runner.RestaurantTable [restaurant_1 2])
    else if String.eqb p "in/users.csv"
         then Some (runner.UserTable [user_1])
         else None.

Definition demo_state (static_time : string) : runner.state :=
  runner.mk_state
    (runner.init "restaurants.csv" "out" static_time "benchmark_results.csv")
    demo_files [] 0 0.

Definition demo_clock (n : nat) : R := INR n.

Definition demo_rss (n : nat) : R := 0%R.

Definition demo_round (x : R) (ndigits : nat) : R := x.

Definition demo_show (x : R) : string := "0.0".

(** * Properties of [is_open] *)

Section TimeOrder.

Variables a b : datetime.time.

Lemma time_le_total : time_le a b \/ time_le b a.
Proof.
  unfold time_le, datetime.leb, datetime.compare.
  destruct (Nat.compare_spec (datetime.hour a) (datetime.hour b));
    destruct (Nat.compare_spec (datetime.hour b) (datetime.hour a));
    try lia; auto.
  destruct (Nat.compare_spec (datetime.minute a) (datetime.minute b));
    destruct (Nat.compare_spec (datetime.minute b) (datetime.minute a));
    try lia; auto.
  destruct (Nat.compare_spec (datetime.second a) (datetime.second b));
    destruct (Nat.compare_spec (datetime.second b) (datetime.second a));
    try lia; auto.
  destruct (Nat.compare_spec (datetime.microsecond a)
              (datetime.microsecond b));
    destruct (Nat.compare_spec (datetime.microsecond b)
                (datetime.microsecond a));
    try lia; auto.
Qed.

Lemma time_le_not_lt : time_le b a -> datetime.ltb a b = false.
Proof.
  unfold time_le, datetime.ltb, datetime.leb, datetime.compare.
  destruct (Nat.compare_spec (datetime.hour a) (datetime.hour b));
    destruct (Nat.compare_spec (datetime.hour b) (datetime.hour a));
    try lia; try congruence.
  destruct (Nat.compare_spec (datetime.minute a) (datetime.minute b));
    destruct (Nat.compare_spec (datetime.minute b) (datetime.minute a));
    try lia; try congruence.
  destruct (Nat.compare_spec (datetime.second a) (datetime.second b));
    destruct (Nat.compare_spec (datetime.second b) (datetime.second a));
    try lia; try congruence.
  destruct (Nat.compare_spec (datetime.microsecond a)
              (datetime.microsecond b));
    destruct (Nat.compare_spec (datetime.microsecond b)
                (datetime.microsecond a));
    try lia; congruence.
Qed.

End TimeOrder.

Lemma time_le_refl (a : datetime.time) : time_le a a.
Proof. destruct (time_le_total a a); assumption. Qed.

Lemma is_open_parsed (row : restaurant) (now o c : datetime.time) :
  datetime.strptime_time (open_hour row) = Ok o ->
  datetime.strptime_time (close_hour row) = Ok c ->
  is_open row now =
  Ok (if datetime.ltb o c
      then datetime.leb o now && datetime.leb now c
      else datetime.geb now o || datetime.leb now c).
Proof.
  intros Ho Hc. unfold is_open. rewrite Ho, Hc. simpl.
  destruct (datetime.ltb o c); reflexivity.
Qed.

Lemma is_open_returns (row : restaurant) (now : datetime.time) :
  exists b, is_open row now = Ok b.
Proof.
  unfold is_open.
  destruct (datetime.strptime_time (open_hour row)) as [o|e]; simpl;
    [ | eexists; reflexivity ].
  destruct (datetime.strptime_time (close_hour row)) as [c|e]; simpl;
    [ | eexists; reflexivity ].
  destruct (datetime.ltb o c); eexists; reflexivity.
Qed.

(** C2, as the code has it.  With both fields parsed: when [open_hour] is
    strictly before [close_hour] the restaurant is open iff
    [open_hour <= instant <= close_hour]; otherwise, equal hours included,
    it is open iff [instant >= open_hour] or [instant <= close_hour], so a
    restaurant whose two hours are equal is open at every instant. *)
Theorem is_open_window (row : restaurant) (now o c : datetime.time) :
  datetime.strptime_time (open_hour row) = Ok o ->
  datetime.strptime_time (close_hour row) = Ok c ->
  (time_lt o c ->
   (is_open row now = Ok true <-> time_le o now /\ time_le now c)) /\
  (time_le c o ->
   (is_open row now = Ok true <-> time_le o now \/ time_le now c)) /\
  (o = c -> is_open row now = Ok true).
Proof.
  intros Ho Hc. rewrite (is_open_parsed row now o c Ho Hc).
  unfold time_lt, time_le, datetime.geb. repeat split.
  - rewrite H in H0. injection H0 as H0.
    apply andb_true_iff in H0. tauto.
  - rewrite H in H0. injection H0 as H0.
    apply andb_true_iff in H0. tauto.
  - intros [H1 H2]. rewrite H, H1, H2. reflexivity.
  - intros H0. rewrite (time_le_not_lt _ _ H) in H0. injection H0 as H0.
    apply orb_true_iff in H0. exact H0.
  - intros H0. rewrite (time_le_not_lt _ _ H).
    f_equal. apply orb_true_iff. exact H0.
  - intros ->. rewrite (time_le_not_lt _ _ (time_le_refl c)).
    f_equal. apply orb_true_iff. apply time_le_total.
Qed.

Lemma is_open_window_witness :
  (time_lt (datetime.mk_time 10 0 0 0) (datetime.mk_time 18 0 0 0) ->
   (is_open (hours "10:00:00" "18:00:00") (datetime.mk_time 12 0 0 0) = Ok true
    <-> time_le (datetime.mk_time 10 0 0 0) (datetime.mk_time 12 0 0 0)
        /\ time_le (datetime.mk_time 12 0 0 0) (datetime.mk_time 18 0 0 0))) /\
  (time_le (datetime.mk_time 18 0 0 0) (datetime.mk_time 10 0 0 0) ->
   (is_open (hours "10:00:00" "18:00:00") (datetime.mk_time 12 0 0 0) = Ok true
    <-> time_le (datetime.mk_time 10 0 0 0) (datetime.mk_time 12 0 0 0)
        \/ time_le (datetime.mk_time 12 0 0 0) (datetime.mk_time 18 0 0 0))) /\
  (datetime.mk_time 10 0 0 0 = datetime.mk_time 18 0 0 0 ->
   is_open (hours "10:00:00" "18:00:00") (datetime.mk_time 12 0 0 0) = Ok true).
Proof.
  apply (is_open_window (hours "10:00:00" "18:00:00")
           (datetime.mk_time 12 0 0 0) (datetime.mk_time 10 0 0 0)
           (datetime.mk_time 18 0 0 0)); reflexivity.
Defined.

(** C2 as stated fails when the two hours are equal: a restaurant with
    [open_hour = close_hour = 10:00:00] satisfies [open_hour <= close_hour],
    is open at 12:00:00, and 12:00:00 is not within [10:00:00, 10:00:00]. *)
Lemma is_open_equal_hours_counterexample :
  datetime.strptime_time (open_hour (hours "10:00:00" "10:00:00"))
  = Ok (datetime.mk_time 10 0 0 0) /\
  datetime.strptime_time (close_hour (hours "10:00:00" "10:00:00"))
  = Ok (datetime.mk_time 10 0 0 0) /\
  time_le (datetime.mk_time 10 0 0 0) (datetime.mk_time 10 0 0 0) /\
  ~ (is_open (hours "10:00:00" "10:00:00") (datetime.mk_time 12 0 0 0) = Ok true
     <-> time_le (datetime.mk_time 10 0 0 0) (datetime.mk_time 12 0 0 0)
         /\ time_le (datetime.mk_time 12 0 0 0) (datetime.mk_time 10 0 0 0)).
Proof.
  repeat split; try reflexivity.
  intros [H _]. destruct (H eq_refl) as [_ H2]. discriminate H2.
Qed.

(** C8: if either [open_hour] or [close_hour] fails to parse, [is_open]
    returns [False], and it raises on no row and at no instant. *)
Theorem is_open_unparseable (row : restaurant) (now : datetime.time) :
  (~ parses (open_hour row) \/ ~ parses (close_hour row) ->
   is_open row now = Ok false) /\
  (forall e, is_open row now <> Raise e).
Proof.
  split.
  - intros H. unfold is_open, parses in *.
    destruct (datetime.strptime_time (open_hour row)) as [o|e]; simpl;
      [ | reflexivity ].
    destruct (datetime.strptime_time (close_hour row)) as [c|e]; simpl;
      [ | reflexivity ].
    exfalso. destruct H as [H|H]; apply H; eexists; reflexivity.
  - intros e H. destruct (is_open_returns row now) as [b Hb]. congruence.
Qed.

Lemma is_open_unparseable_witness :
  is_open (hours "invalid_time" "invalid_time") (datetime.mk_time 12 0 0 0)
  = Ok false.
Proof.
  apply (proj1 (is_open_unparseable (hours "invalid_time" "invalid_time")
                  (datetime.mk_time 12 0 0 0))).
  left. intros [x Hx]. discriminate Hx.
Defined.

(** * The haversine distance *)

Section Haversine.

Local Open Scope R_scope.

Lemma cos_cos_bounds (lu lr : R) :
  - (sin ((lr - lu) / 2)) ^ 2 <= cos lu * cos lr
  <= (cos ((lr - lu) / 2)) ^ 2.
Proof.
  set (x := (lr - lu) / 2). set (m := (lr + lu) / 2).
  replace lu with (m - x) by (unfold m, x; lra).
  replace lr with (m + x) by (unfold m, x; lra).
  rewrite cos_minus, cos_plus.
  pose proof (sin2_cos2 m) as Hm. pose proof (sin2_cos2 x) as Hx.
  unfold Rsqr in Hm, Hx.
  set (sm := sin m) in *. set (cm := cos m) in *.
  set (sx := sin x) in *. set (cx := cos x) in *.
  clearbody sm cm sx cx.
  split; nra.
Qed.

(** The argument of the square root lies in [0, 1] for all coordinates. *)
Lemma haversine_arg_bounds (lu lr dl : R) :
  0 <= (sin ((lr - lu) / 2)) ^ 2 + cos lu * cos lr * (sin (dl / 2)) ^ 2 <= 1.
Proof.
  pose proof (cos_cos_bounds lu lr) as [H1 H2].
  pose proof (sin2_cos2 ((lr - lu) / 2)) as Hx.
  pose proof (sin2_cos2 (dl / 2)) as Hy.
  unfold Rsqr in Hx, Hy.
  set (p := cos lu * cos lr) in *.
  set (sx := sin ((lr - lu) / 2)) in *. set (cx := cos ((lr - lu) / 2)) in *.
  set (sy := sin (dl / 2)) in *. set (cy := cos (dl / 2)) in *.
  clearbody p sx cx sy cy.
  assert (0 <= sy ^ 2 <= 1) by nra.
  assert (0 <= sx ^ 2 <= 1) by nra.
  split; nra.
Qed.

Lemma sqrt_unit (a : R) : 0 <= a <= 1 -> 0 <= sqrt a <= 1.
Proof.
  intros [H0 H1]. split; [apply sqrt_pos | ].
  rewrite <- sqrt_1. apply sqrt_le_1; lra.
Qed.

Lemma clip_unit (x : R) : 0 <= x <= 1 -> np.clip x 0 1 = x.
Proof.
  intros [H0 H1]. unfold np.clip.
  rewrite Rmax_left by lra. apply Rmin_left. lra.
Qed.

Lemma asin_nonneg (x : R) : 0 <= x <= 1 -> 0 <= asin x.
Proof.
  intros Hx.
  destruct (Rle_lt_dec 0 (asin x)) as [H|H]; [exact H|].
  exfalso.
  pose proof (asin_bound x) as [Hlo _].
  assert (Hs : sin (asin x) < 0).
  { apply sin_lt_0_var; [ | exact H]. pose proof PI_RGT_0. lra. }
  rewrite sin_asin in Hs; lra.
Qed.

(** The metric of the index is the haversine formula. *)
Lemma haversine_great_circle (x p : R * R) :
  sklearn.haversine x p = great_circle x p.
Proof.
  unfold sklearn.haversine, great_circle, Rsqr.
  do 3 f_equal.
  replace (0.5 * (fst x - fst p)) with (- ((fst p - fst x) / 2)) by lra.
  replace (0.5 * (snd x - snd p)) with (- ((snd p - snd x) / 2)) by lra.
  rewrite !sin_neg. ring.
Qed.

Lemma great_circle_arg (p q : R * R) :
  0 <= Rsqr (sin ((fst q - fst p) / 2))
       + cos (fst p) * cos (fst q) * Rsqr (sin ((snd q - snd p) / 2)) <= 1.
Proof.
  pose proof (haversine_arg_bounds (fst p) (fst q) (snd q - snd p)) as H.
  unfold Rsqr. replace (sin ((fst q - fst p) / 2) * sin ((fst q - fst p) / 2))
    with ((sin ((fst q - fst p) / 2)) ^ 2) by ring.
  replace (sin ((snd q - snd p) / 2) * sin ((snd q - snd p) / 2))
    with ((sin ((snd q - snd p) / 2)) ^ 2) by ring.
  exact H.
Qed.

(** The distance is never negative. *)
Lemma great_circle_nonneg (p q : R * R) : 0 <= great_circle p q.
Proof.
  unfold great_circle.
  pose proof (asin_nonneg _ (sqrt_unit _ (great_circle_arg p q))). lra.
Qed.

(** The distance from a point to itself is zero. *)
Lemma great_circle_same (p : R * R) : great_circle p p = 0.
Proof.
  unfold great_circle.
  replace ((fst p - fst p) / 2) with 0 by lra.
  replace ((snd p - snd p) / 2) with 0 by lra.
  rewrite sin_0. unfold Rsqr.
  replace (0 * 0 + cos (fst p) * cos (fst p) * (0 * 0)) with 0 by ring.
  rewrite sqrt_0, asin_0. lra.
Qed.



Lemma Rleb_true (x y : R) : np.Rleb x y = true <-> x <= y.
Proof. unfold np.Rleb. destruct (Rle_dec x y); split; intros; try easy. Qed.

Lemma max_ge (arr : list R) (x : R) : In x arr -> x <= np.max arr.
Proof. apply MaxRlist_P1. Qed.

End Haversine.

(** * Rounding to binary32 *)

Section Rounding.

Import binary32.
Local Open Scope R_scope.

Lemma bpow_pos (e : Z) : 0 < bpow e.
Proof. apply powerRZ_lt. lra. Qed.

Lemma bpow_add (a b : Z) : bpow (a + b) = bpow a * bpow b.
Proof. apply powerRZ_add. lra. Qed.

Lemma bpow_opp (e : Z) : bpow (- e) = / bpow e.
Proof. apply powerRZ_neg'. Qed.

Lemma bpow_cancel (e : Z) : bpow e * bpow (- e) = 1.
Proof. rewrite bpow_opp. apply Rinv_r. pose proof (bpow_pos e). lra. Qed.

Lemma ln_2_pos : 0 < ln 2.
Proof. pose proof ln_lt_2. lra. Qed.

Lemma bpow_exp (e : Z) : bpow e = exp (IZR e * ln 2).
Proof. unfold bpow. rewrite powerRZ_Rpower by lra. reflexivity. Qed.

Lemma bpow_lt (a b : Z) : (a < b)%Z -> bpow a < bpow b.
Proof.
  intros H. rewrite !bpow_exp. apply exp_increasing.
  apply Rmult_lt_compat_r; [apply ln_2_pos | apply IZR_lt; exact H].
Qed.

Lemma bpow_le (a b : Z) : (a <= b)%Z -> bpow a <= bpow b.
Proof.
  intros H. destruct (Z.eq_dec a b) as [->|N]; [apply Rle_refl | ].
  left. apply bpow_lt. lia.
Qed.

Lemma bpow_lt_inv (a b : Z) : bpow a < bpow b -> (a < b)%Z.
Proof.
  intros H. destruct (Z_lt_le_dec a b) as [L|L]; [exact L | ].
  apply bpow_le in L. lra.
Qed.

Lemma bpow_IZR (e : Z) : (0 <= e)%Z -> bpow e = IZR (2 ^ e).
Proof.
  intros H. unfold bpow. rewrite <- (Z2Nat.id e H) at 1.
  rewrite <- pow_powerRZ. rewrite pow_IZR. rewrite Z2Nat.id by exact H.
  reflexivity.
Qed.

Lemma mag_bounds (x : R) :
  x <> 0 -> bpow (mag x - 1) <= Rabs x < bpow (mag x).
Proof.
  intros Hx. unfold mag.
  assert (Ha : 0 < Rabs x) by (apply Rabs_pos_lt; exact Hx).
  set (l := ln (Rabs x) / ln 2).
  destruct (Zfloor_bound l) as [H1 H2].
  pose proof ln_2_pos as L2.
  assert (E : ln (Rabs x) = l * ln 2) by (unfold l; field; lra).
  replace (Zfloor l + 1 - 1)%Z with (Zfloor l) by lia.
  rewrite !bpow_exp, plus_IZR.
  assert (X : Rabs x = exp (l * ln 2)) by (rewrite <- E, exp_ln; easy).
  clearbody l. rewrite X. split.
  - destruct H1 as [H1|H1].
    + left. apply exp_increasing. apply Rmult_lt_compat_r; assumption.
    + rewrite H1. apply Rle_refl.
  - apply exp_increasing. apply Rmult_lt_compat_r; assumption.
Qed.


Lemma mag_le (x y : R) : x <> 0 -> Rabs x <= Rabs y -> (mag x <= mag y)%Z.
Proof.
  intros Hx H.
  assert (Hy : y <> 0).
  { intros ->. rewrite Rabs_R0 in H. pose proof (Rabs_pos_lt x Hx). lra. }
  destruct (mag_bounds x Hx) as [M1 M2].
  destruct (mag_bounds y Hy) as [N1 N2].
  assert (A : (mag x - 1 < mag y)%Z) by (apply bpow_lt_inv; lra).
  lia.
Qed.

Lemma nearest_even_cases (x : R) :
  nearest_even x = Zfloor x \/ nearest_even x = (Zfloor x + 1)%Z.
Proof.
  unfold nearest_even.
  destruct (Rlt_dec _ _); [left; reflexivity | ].
  destruct (Rlt_dec _ _); [right; reflexivity | ].
  destruct (Z.even _); [left | right]; reflexivity.
Qed.

Lemma nearest_even_IZR (n : Z) : nearest_even (IZR n) = n.
Proof.
  unfold nearest_even. rewrite ZfloorZ.
  destruct (Rlt_dec _ _) as [|N]; [reflexivity | ]. exfalso. apply N. lra.
Qed.


Lemma nearest_even_mono (x y : R) :
  x <= y -> (nearest_even x <= nearest_even y)%Z.
Proof.
  intros H. pose proof (Zfloor_le x y H) as F.
  destruct (Z.eq_dec (Zfloor x) (Zfloor y)) as [E|N].
  - unfold nearest_even. rewrite E.
    destruct (Rlt_dec (x - _) _) as [A|A];
      destruct (Rlt_dec (y - _) _) as [B|B]; try lia.
    + destruct (Rlt_dec (/ 2) (y - _)); [lia | ].
      destruct (Z.even _); lia.
    + exfalso. lra.
    + destruct (Rlt_dec (/ 2) (x - _)) as [C|C];
        destruct (Rlt_dec (/ 2) (y - _)) as [D|D]; try lia.
      * exfalso. lra.
      * destruct (Z.even _); lia.
  - destruct (nearest_even_cases x) as [-> | ->];
      destruct (nearest_even_cases y) as [-> | ->]; lia.
Qed.

Lemma round_0 : round 0 = 0.
Proof.
  unfold round. rewrite Rmult_0_l.
  change 0 with (IZR 0) at 1. rewrite nearest_even_IZR. apply Rmult_0_l.
Qed.

Lemma ulp_exp_ge (x : R) : (emin <= ulp_exp x)%Z.
Proof. unfold ulp_exp. lia. Qed.

(** A multiple of [2^e] with a mantissa of at most 24 bits is a float. *)
Lemma round_repr (n e : Z) :
  (emin <= e)%Z -> (Z.abs n < 2 ^ prec)%Z ->
  round (IZR n * bpow e) = IZR n * bpow e.
Proof.
  intros He Hn.
  destruct (Z.eq_dec n 0) as [->|N0].
  { rewrite Rmult_0_l. apply round_0. }
  set (x := IZR n * bpow e).
  assert (Hx : x <> 0).
  { unfold x. apply Rmult_integral_contrapositive_currified.
    - apply not_0_IZR. exact N0.
    - pose proof (bpow_pos e). lra. }
  assert (Hm : (mag x <= e + prec)%Z).
  { destruct (mag_bounds x Hx) as [M1 _].
    assert (A : Rabs x < bpow (e + prec)).
    { unfold x. rewrite Rabs_mult, (Rabs_pos_eq (bpow e))
        by (left; apply bpow_pos).
      rewrite bpow_add, (Rmult_comm (bpow e)).
      apply Rmult_lt_compat_r; [apply bpow_pos | ].
      rewrite bpow_IZR by (unfold prec; lia). rewrite <- abs_IZR.
      apply IZR_lt. exact Hn. }
    assert (B : (mag x - 1 < e + prec)%Z) by (apply bpow_lt_inv; lra).
    lia. }
  unfold round.
  assert (Hc : (ulp_exp x <= e)%Z) by (unfold ulp_exp; lia).
  set (c := ulp_exp x) in *.
  assert (S : x * bpow (- c) = IZR (n * 2 ^ (e - c))).
  { unfold x. rewrite mult_IZR, <- bpow_IZR by lia.
    replace (e - c)%Z with (e + - c)%Z by lia. rewrite bpow_add. ring. }
  rewrite S, nearest_even_IZR, mult_IZR, <- bpow_IZR by lia.
  unfold x. rewrite Rmult_assoc, <- bpow_add.
  replace (e - c + c)%Z with e by lia. reflexivity.
Qed.


Lemma scaled_lt (x : R) :
  x <> 0 -> Rabs (x * bpow (- ulp_exp x)) < IZR (2 ^ prec).
Proof.
  intros Hx. destruct (mag_bounds x Hx) as [_ M].
  rewrite Rabs_mult, (Rabs_pos_eq (bpow _)) by (left; apply bpow_pos).
  rewrite <- bpow_IZR by (unfold prec; lia).
  apply Rlt_le_trans with (bpow (mag x) * bpow (- ulp_exp x)).
  - apply Rmult_lt_compat_r; [apply bpow_pos | exact M].
  - rewrite <- bpow_add. apply bpow_le. unfold ulp_exp. lia.
Qed.

Lemma round_idem (x : R) : round (round x) = round x.
Proof.
  destruct (Req_dec x 0) as [->|Hx]; [rewrite round_0; apply round_0 | ].
  pose proof (scaled_lt x Hx) as S. unfold round at 2 3.
  set (c := ulp_exp x) in *. set (s := x * bpow (- c)) in *.
  pose proof (ulp_exp_ge x) as Hc. fold c in Hc.
  apply Rabs_def2 in S as [S1 S2].
  assert (U : (nearest_even s <= 2 ^ prec)%Z).
  { rewrite <- (nearest_even_IZR (2 ^ prec)). apply nearest_even_mono. lra. }
  assert (L : (- 2 ^ prec <= nearest_even s)%Z).
  { rewrite <- (nearest_even_IZR (- 2 ^ prec)). apply nearest_even_mono.
    rewrite opp_IZR. lra. }
  set (n := nearest_even s) in *.
  destruct (Z.eq_dec n (2 ^ prec)) as [E|NE1].
  { replace (IZR n * bpow c) with (IZR (2 ^ (prec - 1)) * bpow (c + 1)).
    - apply round_repr; [lia | ]. unfold prec. simpl. lia.
    - rewrite E, bpow_add. unfold prec, bpow. simpl. lra. }
  destruct (Z.eq_dec n (- 2 ^ prec)) as [E|NE2].
  { replace (IZR n * bpow c) with (IZR (- 2 ^ (prec - 1)) * bpow (c + 1)).
    - apply round_repr; [lia | ]. unfold prec. simpl. lia.
    - rewrite E, bpow_add. unfold prec, bpow. simpl. lra. }
  apply round_repr; [exact Hc | lia].
Qed.

Lemma round_nonneg (x : R) : 0 <= x -> 0 <= round x.
Proof.
  intros H. unfold round. apply Rmult_le_pos; [ | left; apply bpow_pos].
  apply IZR_le. rewrite <- (nearest_even_IZR 0). apply nearest_even_mono.
  apply Rmult_le_pos; [exact H | left; apply bpow_pos].
Qed.

Lemma round_nonpos (x : R) : x <= 0 -> round x <= 0.
Proof.
  intros H. unfold round.
  assert (A : IZR (nearest_even (x * bpow (- ulp_exp x))) <= 0).
  { apply IZR_le. rewrite <- (nearest_even_IZR 0). apply nearest_even_mono.
    pose proof (bpow_pos (- ulp_exp x)). nra. }
  pose proof (bpow_pos (ulp_exp x)). nra.
Qed.

(** Rounding stays within the binade: below [2^k] one does not round above
    [2^k], and from [2^(k-1)] on one does not round below it. *)
Lemma round_le_bpow (x : R) (k : Z) :
  (emin <= k)%Z -> x <= bpow k -> round x <= bpow k.
Proof.
  intros Hk H.
  destruct (Rle_dec x 0) as [N|P].
  { apply Rle_trans with 0; [apply round_nonpos; exact N | ].
    left. apply bpow_pos. }
  assert (Hx : x <> 0) by lra.
  destruct (mag_bounds x Hx) as [M1 M2].
  rewrite Rabs_pos_eq in M1, M2 by lra.
  assert (Hm : (mag x - 1 <= k)%Z).
  { destruct (Z_le_gt_dec (mag x - 1) k) as [L|G]; [exact L | ].
    assert (bpow k < bpow (mag x - 1)) by (apply bpow_lt; lia). lra. }
  unfold round. set (c := ulp_exp x).
  assert (Hc : (c <= k)%Z) by (unfold c, ulp_exp, prec; lia).
  replace (bpow k) with (IZR (2 ^ (k - c)) * bpow c).
  - apply Rmult_le_compat_r; [left; apply bpow_pos | ].
    apply IZR_le. rewrite <- (nearest_even_IZR (2 ^ (k - c))).
    apply nearest_even_mono. rewrite <- bpow_IZR by lia.
    replace (k - c)%Z with (k + - c)%Z by lia. rewrite bpow_add.
    apply Rmult_le_compat_r; [left; apply bpow_pos | exact H].
  - rewrite <- bpow_IZR by lia. rewrite <- bpow_add. f_equal. lia.
Qed.

Lemma round_ge_bpow (x : R) (k : Z) :
  (emin <= k)%Z -> bpow k <= x -> bpow k <= round x.
Proof.
  intros Hk H. pose proof (bpow_pos k) as Pk.
  assert (Hx : x <> 0) by lra.
  destruct (mag_bounds x Hx) as [M1 M2].
  rewrite Rabs_pos_eq in M1, M2 by lra.
  assert (Hm : (k < mag x)%Z) by (apply bpow_lt_inv; lra).
  unfold round. set (c := ulp_exp x).
  destruct (Z_le_gt_dec c k) as [Hc|Hc].
  - replace (bpow k) with (IZR (2 ^ (k - c)) * bpow c).
    + apply Rmult_le_compat_r; [left; apply bpow_pos | ].
      apply IZR_le. rewrite <- (nearest_even_IZR (2 ^ (k - c))).
      apply nearest_even_mono. rewrite <- bpow_IZR by lia.
      replace (k - c)%Z with (k + - c)%Z by lia. rewrite bpow_add.
      apply Rmult_le_compat_r; [left; apply bpow_pos | exact H].
    + rewrite <- bpow_IZR by lia. rewrite <- bpow_add. f_equal. lia.
  - (* the last place is above [2^k]: [x] is at least [2^(c+23)] *)
    assert (E : c = (mag x - prec)%Z) by (unfold c, ulp_exp in *; lia).
    apply Rle_trans with (IZR (2 ^ (prec - 1)) * bpow c).
    + rewrite <- bpow_IZR by (unfold prec; lia). rewrite <- bpow_add.
      apply bpow_le. unfold prec. lia.
    + apply Rmult_le_compat_r; [left; apply bpow_pos | ].
      apply IZR_le. rewrite <- (nearest_even_IZR (2 ^ (prec - 1))).
      apply nearest_even_mono. rewrite <- bpow_IZR by (unfold prec; lia).
      apply Rmult_le_reg_r with (bpow c); [apply bpow_pos | ].
      rewrite Rmult_assoc, (Rmult_comm (bpow (- c))), bpow_cancel, Rmult_1_r.
      rewrite <- bpow_add. replace (prec - 1 + c)%Z with (mag x - 1)%Z by lia.
      exact M1.
Qed.

Lemma nearest_even_opp (x : R) : nearest_even (- x) = (- nearest_even x)%Z.
Proof.
  destruct (Zfloor_bound x) as [F1 F2].
  destruct F1 as [F1|F1].
  - assert (E : Zfloor (- x) = (- Zfloor x - 1)%Z).
    { apply Zfloor_eq. rewrite minus_IZR, opp_IZR. lra. }
    unfold nearest_even. rewrite E, minus_IZR, opp_IZR.
    set (f := Zfloor x) in *.
    assert (Ev : Z.even (- f - 1) = negb (Z.even f)).
    { replace (- f - 1)%Z with (- (f + 1))%Z by lia.
      rewrite Z.even_opp, Z.even_add. destruct (Z.even f); reflexivity. }
    destruct (Rlt_dec (x - IZR f) (/ 2)) as [A|A].
    + destruct (Rlt_dec (- x - (- IZR f - 1)) (/ 2)) as [B|B]; [lra | ].
      destruct (Rlt_dec (/ 2) (- x - (- IZR f - 1))) as [C|C]; [lia | lra].
    + destruct (Rlt_dec (/ 2) (x - IZR f)) as [B|B].
      * destruct (Rlt_dec (- x - (- IZR f - 1)) (/ 2)) as [C|C]; [lia | lra].
      * destruct (Rlt_dec (- x - (- IZR f - 1)) (/ 2)) as [C|C]; [lra | ].
        destruct (Rlt_dec (/ 2) (- x - (- IZR f - 1))) as [D|D]; [lra | ].
        rewrite Ev. destruct (Z.even f); simpl; lia.
  - rewrite <- F1 at 1 2. rewrite <- opp_IZR, !nearest_even_IZR. reflexivity.
Qed.

Lemma mag_opp (x : R) : mag (- x) = mag x.
Proof. unfold mag. rewrite Rabs_Ropp. reflexivity. Qed.

Lemma round_opp (x : R) : round (- x) = - round x.
Proof.
  unfold round, ulp_exp. rewrite mag_opp.
  rewrite Ropp_mult_distr_l_reverse, nearest_even_opp, opp_IZR. ring.
Qed.

Lemma round_mono_pos (x y : R) : 0 < x -> x <= y -> round x <= round y.
Proof.
  intros Px H.
  assert (Hx : x <> 0) by lra. assert (Hy : y <> 0) by lra.
  assert (M : (mag x <= mag y)%Z).
  { apply mag_le; [exact Hx | ]. rewrite !Rabs_pos_eq by lra. exact H. }
  destruct (Z.eq_dec (ulp_exp x) (ulp_exp y)) as [E|N].
  - unfold round. rewrite E.
    apply Rmult_le_compat_r; [left; apply bpow_pos | ].
    apply IZR_le. apply nearest_even_mono.
    apply Rmult_le_compat_r; [left; apply bpow_pos | exact H].
  - assert (L : (emin < mag y - prec /\ mag x < mag y)%Z)
      by (unfold ulp_exp in N; lia).
    destruct (mag_bounds x Hx) as [_ X2].
    destruct (mag_bounds y Hy) as [Y1 _].
    rewrite Rabs_pos_eq in X2, Y1 by lra.
    assert (B : bpow (mag x) <= bpow (mag y - 1)) by (apply bpow_le; lia).
    apply Rle_trans with (bpow (mag y - 1)).
    + apply round_le_bpow; [unfold prec in L; lia | lra].
    + apply round_ge_bpow; [unfold prec in L; lia | exact Y1].
Qed.

Theorem round_mono (x y : R) : x <= y -> round x <= round y.
Proof.
  intros H.
  destruct (Rlt_dec 0 x) as [Px|Nx].
  - apply round_mono_pos; assumption.
  - destruct (Rlt_dec y 0) as [Ny|Py].
    + apply Ropp_le_cancel. rewrite <- !round_opp.
      apply round_mono_pos; lra.
    + apply Rle_trans with 0;
        [apply round_nonpos | apply round_nonneg]; lra.
Qed.




End Rounding.

(** Single precision with rounding to nearest and correctly rounded
    [sin], [cos] and [arcsin]. *)
Definition ieee_single : arithmetic :=
  {| fl := binary32.round;
     sinf := fun x => binary32.round (sin x);
     cosf := fun x => binary32.round (cos x);
     asinf := fun x => binary32.round (asin x);
     fl_0 := round_0;
     fl_mono := round_mono;
     fl_idem := round_idem;
     sinf_0 := eq_trans (f_equal binary32.round sin_0) round_0;
     asinf_0 := eq_trans (f_equal binary32.round asin_0) round_0;
     asinf_nonneg := fun x H => round_nonneg (asin x) (asin_nonneg x H) |}.

(** Exact arithmetic: nothing is rounded. *)
Definition reals : arithmetic :=
  {| fl := fun x => x;
     sinf := sin;
     cosf := cos;
     asinf := asin;
     fl_0 := eq_refl;
     fl_mono := fun x y H => H;
     fl_idem := fun x => eq_refl;
     sinf_0 := sin_0;
     asinf_0 := asin_0;
     asinf_nonneg := asin_nonneg |}.

(** * The distance in single precision *)

Section Single.

Context {m : arithmetic}.
Local Open Scope R_scope.

Lemma fl_nonneg (x : R) : 0 <= x -> 0 <= fl x.
Proof. intros H. rewrite <- fl_0. apply fl_mono. exact H. Qed.

Lemma fl_nonpos (x : R) : x <= 0 -> fl x <= 0.
Proof. intros H. rewrite <- fl_0. apply fl_mono. exact H. Qed.

(** A float32 is cast to itself. *)
Lemma radians_single (x : R) :
  np.astype_float32 (np.radians x) = np.radians x.
Proof. apply fl_idem. Qed.

Lemma lat_rad_single (r : restaurant) :
  np.astype_float32_nan (lat_rad r) = lat_rad r.
Proof.
  unfold lat_rad. destruct (latitude r); [ | reflexivity].
  simpl. f_equal. apply radians_single.
Qed.

Lemma lon_rad_single (r : restaurant) :
  np.astype_float32_nan (lon_rad r) = lon_rad r.
Proof.
  unfold lon_rad. destruct (longitude r); [ | reflexivity].
  simpl. f_equal. apply radians_single.
Qed.

Lemma user_coord_single (u : user) :
  user_coord u = single_point (USER_LATITUDE u) (USER_LONGITUDE u).
Proof. reflexivity. Qed.

Lemma lat_rad_coordinates (r : restaurant) (lat lon : R) :
  latitude r = Some lat -> longitude r = Some lon ->
  (lat_rad r, lon_rad r)
  = (Some (single_radians lat), Some (single_radians lon)).
Proof. intros Hla Hlo. unfold lat_rad, lon_rad. rewrite Hla, Hlo. reflexivity. Qed.

(** Lines 64-67 compute the formula of the specification, operation by
    operation. *)
Lemma exact_distance_single (uc : R * R) (lat lon : R) :
  exact_distance uc (Some lat, Some lon)
  = Some (single_haversine uc (lat, lon)).
Proof. reflexivity. Qed.


(** The computed distance from a point to itself is zero. *)
Lemma single_haversine_same (p : R * R) : single_haversine p p = 0.
Proof.
  unfold single_haversine. cbv zeta.
  replace (fst p - fst p) with 0 by lra.
  replace (snd p - snd p) with 0 by lra.
  rewrite fl_0. replace (0 / 2) with 0 by lra. rewrite fl_0, sinf_0.
  rewrite !Rmult_0_l, fl_0, Rmult_0_r, fl_0, Rplus_0_l, fl_0.
  rewrite sqrt_0, fl_0, Rmax_left by lra. rewrite Rmin_left by lra.
  rewrite asinf_0, Rmult_0_r. apply fl_0.
Qed.


Lemma exact_distance_same (lat lon : R) :
  exact_distance (lat, lon) (Some lat, Some lon) = Some 0.
Proof.
  rewrite exact_distance_single. f_equal. apply single_haversine_same.
Qed.

(** The radius the exact test compares with. *)
Lemma candidate_radius_single (r : restaurant) :
  np.astype_float32
    (np.divide (np.astype_float32 (availability_radius r)) EARTH_RADIUS_KM)
  = single_radius r.
Proof. apply fl_idem. Qed.

End Single.

(** * Arrays: index arrays, masks, enumeration, slices *)

Section Arrays.

Context {A B C : Type}.

(** Indexing several columns of one frame by the indices a predicate on
    one column selects keeps the rows the predicate holds on. *)
Lemma take_query (f : A -> B) (g : A -> C) (P : B -> bool) (l : list A)
  (dB : B) (dC : C) :
  np.take (map g l)
          (filter (fun j => P (nth j (map f l) dB)) (seq 0 (length l))) dC
  = map g (filter (fun a => P (f a)) l).
Proof.
  unfold np.take. induction l as [|a l IH] using rev_ind; [reflexivity|].
  rewrite length_app, Nat.add_1_r, seq_S, !filter_app, !map_app. simpl.
  f_equal.
  - rewrite <- IH. clear IH.
    rewrite (filter_ext_in
               (fun j => P (nth j (map f l ++ [f a]) dB))
               (fun j => P (nth j (map f l) dB))).
    + apply map_ext_in. intros j Hj. apply filter_In in Hj as [Hj _].
      apply in_seq in Hj. apply app_nth1. rewrite length_map. lia.
    + intros j Hj. apply in_seq in Hj. f_equal.
      apply app_nth1. rewrite length_map. lia.
  - rewrite app_nth2 by (rewrite length_map; lia).
    rewrite length_map, Nat.sub_diag. simpl.
    destruct (P (f a)); [ | reflexivity ]. simpl.
    rewrite app_nth2 by (rewrite length_map; lia).
    rewrite length_map, Nat.sub_diag. reflexivity.
Qed.

Lemma combine_map (f : A -> B) (g : A -> C) (l : list A) :
  combine (map f l) (map g l) = map (fun a => (f a, g a)) l.
Proof. induction l; simpl; congruence. Qed.

Lemma select_mask (g : A -> C) (Q : A -> bool) (l : list A) :
  np.select (map g l) (map Q l) = map g (filter Q l).
Proof.
  unfold np.select. induction l as [|a l IH]; [reflexivity|].
  simpl. destruct (Q a); simpl; congruence.
Qed.

Lemma select_filter (Q : A -> bool) (l : list A) :
  np.select l (map Q l) = filter Q l.
Proof.
  unfold np.select. induction l as [|a l IH]; [reflexivity|].
  simpl. destruct (Q a); simpl; congruence.
Qed.

Lemma filter_filter (P Q : A -> bool) (l : list A) :
  filter P (filter Q l) = filter (fun a => Q a && P a) l.
Proof.
  induction l as [|a l IH]; [reflexivity|].
  simpl. destruct (Q a); simpl; [ | exact IH ].
  destruct (P a); congruence.
Qed.

(** A loop over [enumerate] whose body reads the element at its index. *)
Lemma map_enumerate (q : A -> B) (F : nat -> B -> C) (G : A -> C)
  (l : list A) (s : nat) :
  (forall i x, nth_error l i = Some x -> F (s + i) (q x) = G x) ->
  map (fun e => F (fst e) (snd e)) (combine (seq s (length l)) (map q l))
  = map G l.
Proof.
  revert s. induction l as [|a l IH]; intros s H; [reflexivity|].
  simpl. f_equal.
  - rewrite <- (H 0 a eq_refl). f_equal. lia.
  - apply IH. intros i x Hi. rewrite <- (H (S i) x Hi). f_equal. lia.
Qed.

Lemma slice_map (f : A -> B) (l : list A) (i j : nat) :
  slice (map f l) i j = map f (slice l i j).
Proof. unfold slice. rewrite skipn_map, firstn_map. reflexivity. Qed.

(** The slices at the steps of [range] partition the list from the start
    index on. *)
Lemma concat_slices_from (l : list A) (bs : nat) :
  0 < bs ->
  forall fuel s,
    length l - s <= fuel ->
    concat (map (fun i => slice l i (i + bs))
                (range_from fuel s (length l) bs))
    = skipn s l.
Proof.
  intros Hbs. induction fuel as [|fuel IH]; intros s Hf; simpl.
  - symmetry. apply skipn_all2. lia.
  - destruct (Nat.ltb_spec s (length l)) as [Hlt|Hge].
    + simpl. rewrite IH by lia. unfold slice.
      replace (s + bs - s) with bs by lia.
      transitivity (firstn bs (skipn s l) ++ skipn bs (skipn s l));
        [ | apply firstn_skipn ].
      rewrite skipn_skipn. do 2 f_equal. lia.
    + symmetry. apply skipn_all2. lia.
Qed.

Lemma concat_slices (l : list A) (bs : nat) :
  0 < bs ->
  concat (map (fun i => slice l i (i + bs)) (range 0 (length l) bs)) = l.
Proof.
  intros Hbs. unfold range.
  rewrite (concat_slices_from l bs Hbs) by lia. reflexivity.
Qed.

Lemma nth_of_nth_error (l : list A) (i : nat) (x d : A) :
  nth_error l i = Some x -> nth i l d = x.
Proof. intros H. apply nth_error_nth. exact H. Qed.

End Arrays.

Lemma batch_size_pos : 0 < batch_size.
Proof. unfold batch_size. apply Nat.lt_0_succ. Qed.

(** * The matcher on one batch *)

Section Matcher.

Context {m : arithmetic}.
Variable odf : list restaurant.

Lemma open_coords_frame :
  open_coords odf = map (fun r => (lat_rad r, lon_rad r)) odf.
Proof.
  unfold open_coords. apply map_ext. intros r.
  rewrite lat_rad_single, lon_rad_single. reflexivity.
Qed.

(** The radius of the query is at least the radius of every restaurant of
    the frame. *)
Lemma single_radius_max (r : restaurant) :
  In r odf -> (single_radius r <= np.max (open_radii odf))%R.
Proof.
  intros Hin. apply max_ge. unfold open_radii.
  apply (in_map (fun r0 => np.divide
                             (np.astype_float32 (availability_radius r0))
                             EARTH_RADIUS_KM)) in Hin.
  exact Hin.
Qed.

(** The query with the largest radius excludes no restaurant whose
    haversine distance to the user is within its own radius. *)
Lemma own_radius_coarse (uc : R * R) (r : restaurant) (lat lon : R) :
  In r odf -> latitude r = Some lat -> longitude r = Some lon ->
  (great_circle uc (single_point lat lon) <= single_radius r)%R ->
  coarse uc (np.max (open_radii odf)) r = true.
Proof.
  intros Hin Hla Hlo H. unfold coarse.
  rewrite (lat_rad_coordinates r lat lon Hla Hlo). unfold sklearn.dist.
  rewrite haversine_great_circle. apply Rleb_true.
  eapply Rle_trans; [exact H | apply single_radius_max; exact Hin].
Qed.

Lemma query_frame (uc : R * R) (rmax : R) (X : Type) (g : restaurant -> X)
  (d : X) :
  np.take (map g odf)
          (sklearn.query_radius_single
             (sklearn.mk_tree (open_coords odf)) uc rmax) d
  = map g (filter (coarse uc rmax) odf).
Proof.
  unfold sklearn.query_radius_single. simpl sklearn.data.
  rewrite open_coords_frame, length_map.
  exact (take_query (fun r => (lat_rad r, lon_rad r)) g
           (fun p => np.le (sklearn.dist uc p) rmax) odf (None, None) d).
Qed.

Lemma batch_row_user (coords : list (R * R)) (lats lons : list R)
  (i : nat) (u : user) :
  nth i coords (0, 0)%R = user_coord u ->
  nth i lats 0%R = USER_LATITUDE u ->
  nth i lons 0%R = USER_LONGITUDE u ->
  batch_row coords lats lons (open_coords odf) (open_ids odf)
    (open_radii odf) i
    (sklearn.query_radius_single (sklearn.mk_tree (open_coords odf))
       (user_coord u) (np.max (open_radii odf)))
  = user_row odf u.
Proof.
  intros Hc Hlat Hlon. unfold batch_row, user_row.
  rewrite Hc, Hlat, Hlon.
  set (F := filter (coarse (user_coord u) (np.max (open_radii odf))) odf).
  set (q := sklearn.query_radius_single _ _ _).
  assert (E1 : np.take (open_coords odf) q (None, None)
               = map (fun r => (lat_rad r, lon_rad r)) F).
  { unfold q. rewrite open_coords_frame at 1. rewrite <- open_coords_frame.
    rewrite open_coords_frame at 1. apply query_frame. }
  assert (E2 : np.take (open_radii odf) q 0%R
               = map (fun r => np.divide
                                 (np.astype_float32 (availability_radius r))
                                 EARTH_RADIUS_KM) F)
    by apply query_frame.
  assert (E3 : np.take (open_ids odf) q (IntId 0) = map id F)
    by apply query_frame.
  rewrite E1, E2, E3. clear E1 E2 E3 q.
  unfold np.astype_float32_rows.
  rewrite !map_map, combine_map, map_map. cbn [fst snd].
  rewrite (map_ext _ (in_radius (user_coord u))).
  - rewrite (select_mask id (in_radius (user_coord u)) F).
    rewrite map_map. unfold F. rewrite filter_filter. reflexivity.
  - intros r. rewrite lat_rad_single, lon_rad_single. reflexivity.
Qed.

Lemma matcher_row_frame (u : user) :
  matcher_row (open_coords odf) (open_ids odf) (open_radii odf) u
  = user_row odf u.
Proof. apply batch_row_user; reflexivity. Qed.

End Matcher.

Section Batches.

Context {m : arithmetic}.
Variable oc : list (float * float).
Variable oi : list ident.
Variable orad : list R.

(** A batch of users, given as the three aligned arrays the processor
    slices from the user table. *)
Lemma process_user_batch_rows (us : list user) :
  process_user_batch (user_coords us) (map USER_LATITUDE us)
    (map USER_LONGITUDE us) oc oi orad
  = map (matcher_row oc oi orad) us.
Proof.
  unfold process_user_batch, enumerate, sklearn.query_radius, user_coords.
  rewrite map_map, !length_map.
  apply (map_enumerate
           (fun u => sklearn.query_radius_single (sklearn.mk_tree oc)
                       (user_coord u) (np.max orad))
           (fun i indices =>
              batch_row (map user_coord us) (map USER_LATITUDE us)
                (map USER_LONGITUDE us) oc oi orad i indices)
           (matcher_row oc oi orad) us 0).
  intros i u Hi. simpl. unfold matcher_row, batch_row. cbn [nth].
  rewrite (nth_of_nth_error (map user_coord us) i (user_coord u) (0, 0)%R)
    by (rewrite nth_error_map, Hi; reflexivity).
  rewrite (nth_of_nth_error (map USER_LATITUDE us) i (USER_LATITUDE u) 0%R)
    by (rewrite nth_error_map, Hi; reflexivity).
  rewrite (nth_of_nth_error (map USER_LONGITUDE us) i (USER_LONGITUDE u)
             0%R)
    by (rewrite nth_error_map, Hi; reflexivity).
  reflexivity.
Qed.

(** The fan-out over slices of [batch_size] users and the fan-in. *)
Lemma batches_rows (us : list user) :
  concat (Parallel run_batch
            (batches (user_coords us) (map USER_LATITUDE us)
               (map USER_LONGITUDE us) oc oi orad))
  = map (matcher_row oc oi orad) us.
Proof.
  unfold Parallel, batches. rewrite map_map.
  rewrite (map_ext _ (fun i => map (matcher_row oc oi orad)
                                 (slice us i (i + batch_size)))).
  - unfold user_coords. rewrite length_map.
    rewrite <- (concat_slices us batch_size batch_size_pos) at 2.
    rewrite concat_map, map_map. reflexivity.
  - intros i. unfold run_batch, user_coords.
    rewrite !slice_map. apply process_user_batch_rows.
Qed.

End Batches.

(** * The whole run *)

Lemma apply_rows_is_open (now : datetime.time) (df : list restaurant) :
  apply_rows (fun row => is_open row now) df = Ok (map (is_open_at now) df).
Proof.
  induction df as [|r df IH]; [reflexivity|].
  simpl. rewrite IH. unfold is_open_at.
  destruct (is_open_returns r now) as [b ->]. reflexivity.
Qed.

(** What a run prints and returns, once the query instant parses. *)
Lemma find_available_restaurants_spec {m : arithmetic}
  (static_time : string) (now : datetime.time) (users : list user)
  (rs : list restaurant) :
  datetime.strptime_time (Str static_time) = Ok now ->
  find_available_restaurants static_time users rs =
  match open_frame now rs with
  | [] => mk_outcome [notice] (Ok (mk_frame [] []))
  | _ :: _ =>
      mk_outcome [] (Ok (mk_frame result_columns
                           (map (user_row (open_frame now rs)) users)))
  end.
Proof.
  intros Hnow. unfold find_available_restaurants.
  rewrite Hnow, apply_rows_is_open, select_filter.
  fold (open_frame now rs).
  destruct (open_frame now rs) as [|r odf] eqn:E; [reflexivity|].
  rewrite batches_rows.
  rewrite (map_ext _ _ (matcher_row_frame (r :: odf))). reflexivity.
Qed.

Lemma in_radius_has_coordinates {m : arithmetic} (uc : R * R)
  (r : restaurant) :
  in_radius uc r = true -> has_coordinates r.
Proof.
  unfold in_radius, has_coordinates, lat_rad, lon_rad.
  destruct (latitude r), (longitude r); simpl; intros H;
    try discriminate; split; discriminate.
Qed.

(** The restaurants of the open frame that the matcher keeps for a user
    are the restaurants of the catalog within reach of the user. *)
Lemma open_frame_matched {m : arithmetic} (now : datetime.time) (u : user)
  (rs : list restaurant) :
  filter (matched (open_frame now rs) (user_coord u)) (open_frame now rs)
  = filter (within_reach now rs u) rs.
Proof.
  unfold open_frame at 2. unfold dropna. rewrite !filter_filter.
  apply filter_ext_in. intros r _.
  unfold within_reach, matched.
  destruct (in_radius (user_coord u) r) eqn:E.
  - destruct (in_radius_has_coordinates _ _ E) as [Hla Hlo].
    destruct (latitude r); [ | congruence ].
    destruct (longitude r); [ | congruence ].
    simpl. destruct (is_open_at now r); simpl;
      rewrite ?andb_true_r, ?andb_false_r; reflexivity.
  - rewrite !andb_false_r. reflexivity.
Qed.

(** * Sorting and joining the identifiers *)

Lemma insert_perm (s : string) (l : list string) :
  Permutation (np.insert s l) (s :: l).
Proof.
  induction l as [|x l IH]; simpl; [reflexivity|].
  destruct (String.leb s x); [reflexivity|].
  rewrite IH. apply perm_swap.
Qed.

Lemma sort_perm (l : list string) : Permutation (np.sort l) l.
Proof.
  induction l as [|x l IH]; simpl; [reflexivity|].
  rewrite insert_perm. constructor. exact IH.
Qed.

Lemma insert_sorted (s : string) (l : list string) :
  Sorted str_le l -> Sorted str_le (np.insert s l).
Proof.
  induction l as [|x l IH]; intros Hs; simpl.
  - repeat constructor.
  - destruct (String.leb s x) eqn:E.
    + constructor; [exact Hs | constructor; exact E].
    + inversion Hs as [|? ? Hl Hhd]; subst.
      constructor; [apply IH; exact Hl | ].
      assert (Hxs : str_le x s).
      { destruct (String.leb_total s x) as [H|H]; [congruence | exact H]. }
      destruct l as [|y l]; simpl.
      * constructor. exact Hxs.
      * destruct (String.leb s y); constructor; [exact Hxs | ].
        inversion Hhd; assumption.
Qed.

Lemma sort_sorted (l : list string) : Sorted str_le (np.sort l).
Proof.
  induction l as [|x l IH]; simpl; [constructor|].
  apply insert_sorted. exact IH.
Qed.

Lemma str_le_trans (a b c : string) : str_le a b -> str_le b c -> str_le a c.
Proof.
  unfold str_le, String.leb. intros Hab Hbc.
  destruct (String.compare a b) eqn:Eab; try discriminate;
    destruct (String.compare b c) eqn:Ebc; try discriminate.
  - apply String.compare_eq_iff in Eab, Ebc. subst.
    pose proof (proj2 (String_as_OT.cmp_eq c c) eq_refl) as H.
    unfold String_as_OT.cmp in H. rewrite H. reflexivity.
  - apply String.compare_eq_iff in Eab. subst. rewrite Ebc. reflexivity.
  - apply String.compare_eq_iff in Ebc. subst. rewrite Eab. reflexivity.
  - apply String_as_OT.cmp_lt in Eab, Ebc.
    pose proof (proj2 (String_as_OT.cmp_lt a c)
                  (String_as_OT.lt_trans a b c Eab Ebc)) as H.
    unfold String_as_OT.cmp in H. rewrite H. reflexivity.
Qed.

Lemma insert_insert (a b : string) (l : list string) :
  np.insert a (np.insert b l) = np.insert b (np.insert a l).
Proof.
  induction l as [|x l IH]; simpl.
  - destruct (String.leb a b) eqn:Eab, (String.leb b a) eqn:Eba;
      try reflexivity.
    + rewrite (String.leb_antisym _ _ Eab Eba). reflexivity.
    + destruct (String.leb_total a b); congruence.
  - destruct (String.leb b x) eqn:Ebx, (String.leb a x) eqn:Eax; simpl;
      rewrite ?Ebx, ?Eax.
    + destruct (String.leb a b) eqn:Eab, (String.leb b a) eqn:Eba;
        try reflexivity.
      * rewrite (String.leb_antisym _ _ Eab Eba). reflexivity.
      * destruct (String.leb_total a b); congruence.
    + destruct (String.leb a b) eqn:Eab; [ | reflexivity ].
      pose proof (str_le_trans _ _ _ Eab Ebx) as H. unfold str_le in H.
      congruence.
    + destruct (String.leb b a) eqn:Eba; [ | reflexivity ].
      pose proof (str_le_trans _ _ _ Eba Eax) as H. unfold str_le in H.
      congruence.
    + f_equal. exact IH.
Qed.

(** The sorted array does not depend on the order of the input, so not on
    the order in which the index returns the neighbours. *)
Lemma sort_permutation (l l' : list string) :
  Permutation l l' -> np.sort l = np.sort l'.
Proof.
  induction 1; simpl; try congruence.
  apply insert_insert.
Qed.

(** * The order of the neighbours *)

Section IndexOrder.

Context {m : arithmetic}.
Variable uc : R * R.
Variable oc : list (float * float).
Variable oi : list ident.
Variable orad : list R.

Lemma matched_of_indices (indices : list nat) :
  map np.astype_str
    (np.select (np.take oi indices (IntId 0))
       (map (fun cr => np.le (fst cr) (snd cr))
          (combine
             (map (exact_distance uc)
                (np.astype_float32_rows (np.take oc indices (None, None))))
             (map np.astype_float32 (np.take orad indices 0%R)))))
  = map (fun j => np.astype_str (nth j oi (IntId 0)))
      (filter (keeps uc oc orad) indices).
Proof.
  unfold np.take, np.select, np.astype_float32_rows.
  induction indices as [|j l IH]; [reflexivity|].
  cbn [map combine filter fst snd]. fold (keeps uc oc orad j).
  destruct (keeps uc oc orad j); cbn [map fst]; rewrite IH; reflexivity.
Qed.

Lemma filter_permutation (A : Type) (f : A -> bool) (l l' : list A) :
  Permutation l l' -> Permutation (filter f l) (filter f l').
Proof.
  induction 1 as [|x l l' _ IH|x y l|l l' l'' _ IH1 _ IH2]; simpl.
  - constructor.
  - destruct (f x); [constructor | ]; exact IH.
  - destruct (f x), (f y); try reflexivity. apply perm_swap.
  - exact (Permutation_trans IH1 IH2).
Qed.

(** X8: the row of a user does not depend on the order in which the index
    returns the neighbours of the user ([query_radius] does not sort
    them): two index arrays that are rearrangements of each other give the
    same count and the same field. *)
Lemma batch_row_order (coords : list (R * R)) (lats lons : list R)
  (i : nat) (indices indices' : list nat) :
  nth i coords (0, 0)%R = uc ->
  Permutation indices indices' ->
  batch_row coords lats lons oc oi orad i indices
  = batch_row coords lats lons oc oi orad i indices'.
Proof.
  intros Hc Hp. unfold batch_row. rewrite Hc, !matched_of_indices.
  set (f := keeps uc oc orad).
  set (g := fun j => np.astype_str (nth j oi (IntId 0))).
  assert (P : Permutation (map g (filter f indices))
                          (map g (filter f indices')))
    by (apply Permutation_map, filter_permutation; exact Hp).
  rewrite (Permutation_length P), (sort_permutation _ _ P).
  destruct (map g (filter f indices)) as [|x l] eqn:E.
  - apply Permutation_nil in P. rewrite P. reflexivity.
  - destruct (map g (filter f indices')) as [|y l'] eqn:E';
      [ | reflexivity ].
    apply Permutation_sym, Permutation_nil in P. discriminate P.
Qed.

End IndexOrder.

(** * Reading the identifiers back from the joined field *)

Lemma split_plain (sep : ascii) (s : string) :
  has_char sep s = false -> split sep s = [s].
Proof.
  induction s as [|c s IH]; simpl; [reflexivity|].
  intros H. apply orb_false_iff in H as [Hc Hs].
  rewrite Hc, (IH Hs). reflexivity.
Qed.

Lemma split_app (sep : ascii) (s rest : string) :
  has_char sep s = false ->
  split sep (s ++ String sep rest) = s :: split sep rest.
Proof.
  induction s as [|c s IH]; simpl.
  - intros _. rewrite Ascii.eqb_refl. reflexivity.
  - intros H. apply orb_false_iff in H as [Hc Hs].
    rewrite Hc, (IH Hs). reflexivity.
Qed.

Lemma split_join (l : list string) :
  l <> [] ->
  Forall (fun s => has_char ";" s = false) l ->
  split ";" (join ";" l) = l.
Proof.
  induction l as [|s l IH]; [congruence|].
  intros _ Hl. inversion Hl as [|? ? Hs Hl']; subst.
  destruct l as [|s' l].
  - simpl. apply split_plain. exact Hs.
  - change (join ";" (s :: s' :: l))
      with (s ++ String ";" (join ";" (s' :: l)))%string.
    rewrite (split_app ";" s _ Hs), IH;
      [reflexivity | discriminate | exact Hl'].
Qed.

Lemma plain_id_spec (s : string) :
  plain_id s = true -> s <> EmptyString /\ has_char ";" s = false.
Proof.
  unfold plain_id. intros H. apply andb_true_iff in H as [H1 H2].
  apply negb_true_iff in H1, H2. split; [ | exact H2 ].
  intros ->. discriminate H1.
Qed.

(** A reader of the field finds the sorted identifiers, when they are
    plain. *)
Lemma listed_ids_render (l : list string) :
  Forall (fun s => plain_id s = true) l ->
  listed_ids (render l) = np.sort l.
Proof.
  intros Hl. destruct l as [|x l]; [reflexivity|].
  unfold render.
  assert (Hs : Forall (fun s => plain_id s = true) (np.sort (x :: l))).
  { eapply Permutation_Forall; [ | exact Hl ].
    apply Permutation_sym, sort_perm. }
  assert (Hne : np.sort (x :: l) <> []).
  { intros E. pose proof (sort_perm (x :: l)) as P. rewrite E in P.
    apply Permutation_nil in P. discriminate P. }
  assert (Hj : split ";" (join ";" (np.sort (x :: l))) = np.sort (x :: l)).
  { apply split_join; [exact Hne | ].
    eapply Forall_impl; [ | exact Hs ].
    intros s Hp. apply (plain_id_spec s Hp). }
  destruct (np.sort (x :: l)) as [|y ys] eqn:E; [congruence|].
  unfold listed_ids.
  destruct (join ";" (y :: ys)) as [|c j] eqn:Ej; [ | exact Hj ].
  exfalso. inversion Hs as [|? ? Hy _]; subst.
  apply plain_id_spec in Hy as [Hy _]. apply Hy.
  destruct ys; simpl in Ej; [exact Ej | ].
  destruct y; [reflexivity | discriminate Ej].
Qed.

(** * The rows of a run *)

Section Run.

Context {m : arithmetic}.
Variable static_time : string.
Variable now : datetime.time.
Variable users : list user.
Variable rs : list restaurant.

Hypothesis instant : datetime.strptime_time (Str static_time) = Ok now.

Lemma run_returns :
  returned (find_available_restaurants static_time users rs) =
  Ok (match open_frame now rs with
      | [] => mk_frame [] []
      | _ :: _ =>
          mk_frame result_columns (map (user_row (open_frame now rs)) users)
      end).
Proof.
  rewrite (find_available_restaurants_spec _ _ users rs instant).
  destruct (open_frame now rs); reflexivity.
Qed.

Lemma user_row_reached (u : user) :
  user_row (open_frame now rs) u =
  mk_row (USER_LATITUDE u) (USER_LONGITUDE u)
    (length (filter (within_reach now rs u) rs))
    (render (map id_str (filter (within_reach now rs u) rs))).
Proof.
  unfold user_row. rewrite open_frame_matched, length_map. reflexivity.
Qed.

(** Every row of the result is the row of the user at the same index. *)
Lemma run_row (df : DataFrame) (i : nat) (row : result_row) :
  returned (find_available_restaurants static_time users rs) = Ok df ->
  nth_error (rows df) i = Some row ->
  exists u, nth_error users i = Some u
            /\ row = user_row (open_frame now rs) u.
Proof.
  rewrite run_returns. intros Hdf Hrow. injection Hdf as <-.
  destruct (open_frame now rs) as [|r odf]; simpl in Hrow.
  - destruct i; discriminate Hrow.
  - rewrite nth_error_map in Hrow.
    destruct (nth_error users i) as [u|]; [ | discriminate Hrow ].
    exists u. split; [reflexivity | ]. injection Hrow as <-. reflexivity.
Qed.

End Run.

Lemma dropna_In (rs : list restaurant) (r : restaurant) :
  In r (dropna rs) <-> In r rs /\ has_coordinates r.
Proof.
  unfold dropna, has_coordinates. rewrite filter_In.
  destruct (latitude r), (longitude r); split; intros [H1 H2];
    try discriminate; try split; try split; try congruence; tauto.
Qed.

Lemma open_frame_In (now : datetime.time) (rs : list restaurant)
  (r : restaurant) :
  In r (open_frame now rs)
  <-> In r rs /\ has_coordinates r /\ is_open r now = Ok true.
Proof.
  unfold open_frame. rewrite filter_In, dropna_In. unfold is_open_at.
  destruct (is_open_returns r now) as [b ->].
  split.
  - intros [[H1 H2] ->]. tauto.
  - intros [H1 [H2 H3]]. injection H3 as ->. tauto.
Qed.

Lemma is_open_at_true (now : datetime.time) (r : restaurant) :
  is_open_at now r = true <-> is_open r now = Ok true.
Proof.
  unfold is_open_at. destruct (is_open_returns r now) as [b ->].
  split; [intros -> | intros H; injection H as ->]; reflexivity.
Qed.

Section Reach.

Context {m : arithmetic}.
Variable now : datetime.time.
Variable rs : list restaurant.
Variable u : user.

(** The exact test, in the words of the specification. *)
Lemma in_radius_single (r : restaurant) (lat lon : R) :
  latitude r = Some lat -> longitude r = Some lon ->
  in_radius (user_coord u) r = true
  <-> (single_haversine
         (single_point (USER_LATITUDE u) (USER_LONGITUDE u))
         (single_point lat lon)
       <= single_radius r)%R.
Proof.
  intros Hla Hlo. unfold in_radius.
  rewrite (lat_rad_coordinates r lat lon Hla Hlo), exact_distance_single.
  rewrite candidate_radius_single. cbn [np.le]. apply Rleb_true.
Qed.

(** The test of the query, in the words of the specification: the radius
    of the query is the radius of an open restaurant. *)
Lemma coarse_single (r : restaurant) (lat lon : R) :
  In r rs -> is_open r now = Ok true ->
  latitude r = Some lat -> longitude r = Some lon ->
  coarse (user_coord u) (np.max (open_radii (open_frame now rs))) r = true
  <-> exists lat' lon' r',
        In r' rs /\ is_open r' now = Ok true /\
        latitude r' = Some lat' /\ longitude r' = Some lon' /\
        (great_circle (single_point (USER_LATITUDE u) (USER_LONGITUDE u))
                      (single_point lat lon)
         <= single_radius r')%R.
Proof.
  intros Hin Ho Hla Hlo. unfold coarse.
  rewrite (lat_rad_coordinates r lat lon Hla Hlo). unfold sklearn.dist.
  rewrite haversine_great_circle. cbn [np.le]. rewrite Rleb_true.
  rewrite user_coord_single.
  split.
  - intros H.
    assert (Hr : In r (open_frame now rs)).
    { apply open_frame_In. repeat split; try assumption; congruence. }
    assert (Hmax : In (np.max (open_radii (open_frame now rs)))
                      (open_radii (open_frame now rs))).
    { apply MaxRlist_P2. exists (single_radius r). unfold open_radii.
      apply (in_map (fun r0 => np.divide
                                 (np.astype_float32 (availability_radius r0))
                                 EARTH_RADIUS_KM)) in Hr.
      exact Hr. }
    unfold open_radii in Hmax at 2. apply in_map_iff in Hmax as [r' [E Hr']].
    apply open_frame_In in Hr' as [H1 [[H2 H3] H4]].
    destruct (latitude r') as [lat'|] eqn:Ela; [ | congruence].
    destruct (longitude r') as [lon'|] eqn:Elo; [ | congruence].
    exists lat', lon', r'. repeat split; try assumption.
    change (single_radius r')
      with (np.divide (np.astype_float32 (availability_radius r'))
                      EARTH_RADIUS_KM).
    rewrite E. exact H.
  - intros [lat' [lon' [r' [H1 [H2 [H3 [H4 H5]]]]]]].
    eapply Rle_trans; [exact H5 | ].
    apply single_radius_max. apply open_frame_In.
    repeat split; try assumption; congruence.
Qed.

(** Within reach, as the code decides it and as the specification words
    it. *)
Lemma within_reach_reachable (r : restaurant) :
  In r rs -> within_reach now rs u r = true <-> reachable now rs u r.
Proof.
  intros Hin. unfold within_reach, matched, reachable.
  rewrite !andb_true_iff, is_open_at_true. split.
  - intros [[Hc Hr] Ho]. split; [exact Ho | ].
    destruct (in_radius_has_coordinates _ _ Hr) as [Hla Hlo].
    destruct (latitude r) as [lat|] eqn:Ela; [ | congruence].
    destruct (longitude r) as [lon|] eqn:Elo; [ | congruence].
    exists lat, lon. split; [reflexivity | ]. split; [reflexivity | ].
    cbv zeta. split.
    + apply (in_radius_single r lat lon Ela Elo). exact Hr.
    + apply (coarse_single r lat lon Hin Ho Ela Elo). exact Hc.
  - intros [Ho [lat [lon [Hla [Hlo [Hs Hg]]]]]]. cbv zeta in Hs, Hg.
    split; [ | exact Ho]. split.
    + apply (coarse_single r lat lon Hin Ho Hla Hlo). exact Hg.
    + apply (in_radius_single r lat lon Hla Hlo). exact Hs.
Qed.

(** A restaurant within its own radius both by the haversine distance and
    by its evaluation in single precision is within reach. *)
Lemma own_radius_reachable (r : restaurant) (lat lon : R) :
  In r rs -> is_open r now = Ok true ->
  latitude r = Some lat -> longitude r = Some lon ->
  (single_haversine (single_point (USER_LATITUDE u) (USER_LONGITUDE u))
                    (single_point lat lon)
   <= single_radius r)%R ->
  (great_circle (single_point (USER_LATITUDE u) (USER_LONGITUDE u))
                (single_point lat lon)
   <= single_radius r)%R ->
  reachable now rs u r.
Proof.
  intros Hin Ho Hla Hlo Hs Hg. split; [exact Ho | ].
  exists lat, lon. split; [exact Hla | ]. split; [exact Hlo | ].
  cbv zeta. split; [exact Hs | ].
  exists lat, lon, r. repeat split; assumption.
Qed.

(** A restaurant with a radius that is not negative is within reach of a
    user whose coordinates are the same float32 numbers as its own. *)
Lemma same_single_reachable (r : restaurant) (lat lon : R) :
  In r rs -> is_open r now = Ok true ->
  latitude r = Some lat -> longitude r = Some lon ->
  np.astype_float32 lat = np.astype_float32 (USER_LATITUDE u) ->
  np.astype_float32 lon = np.astype_float32 (USER_LONGITUDE u) ->
  (0 <= availability_radius r)%R ->
  reachable now rs u r.
Proof.
  intros Hin Ho Hla Hlo Elat Elon Hr.
  assert (Hrad : (0 <= single_radius r)%R).
  { unfold single_radius. apply fl_nonneg.
    apply Rmult_le_pos; [apply fl_nonneg; exact Hr | ].
    left. apply Rinv_0_lt_compat. lra. }
  assert (E : single_point lat lon
              = single_point (USER_LATITUDE u) (USER_LONGITUDE u)).
  { unfold single_point, single_radians, np.astype_float32 in *.
    rewrite Elat, Elon. reflexivity. }
  apply (own_radius_reachable r lat lon Hin Ho Hla Hlo); rewrite E.
  - rewrite single_haversine_same. exact Hrad.
  - rewrite great_circle_same. exact Hrad.
Qed.

End Reach.

Lemma NoDup_map_In (A B : Type) (f : A -> B) (l : list A) (x y : A) :
  NoDup (map f l) -> In x l -> In y l -> f x = f y -> x = y.
Proof.
  induction l as [|a l IH]; simpl; [tauto|].
  intros Hnd Hx Hy E. inversion Hnd as [|? ? Hnot Hnd']; subst.
  destruct Hx as [->|Hx], Hy as [->|Hy]; try reflexivity.
  - exfalso. apply Hnot. rewrite E. apply in_map. exact Hy.
  - exfalso. apply Hnot. rewrite <- E. apply in_map. exact Hx.
  - apply IH; assumption.
Qed.

(** With distinct plain identifiers, the identifiers read back from a
    user's field are those of the restaurants within reach. *)
Lemma listed_ids_reached {m : arithmetic} (now : datetime.time) (u : user)
  (rs : list restaurant) (r : restaurant) :
  NoDup (map id_str rs) ->
  Forall (fun x => plain_id (id_str x) = true) rs ->
  In r rs ->
  In (id_str r)
     (listed_ids (render (map id_str (filter (within_reach now rs u) rs))))
  <-> within_reach now rs u r = true.
Proof.
  intros Hnd Hplain Hin.
  rewrite listed_ids_render.
  - split.
    + intros H. apply (Permutation_in _ (sort_perm _)) in H.
      apply in_map_iff in H as [r' [E Hr']].
      apply filter_In in Hr' as [Hr' Hw].
      rewrite <- (NoDup_map_In _ _ id_str rs r' r Hnd Hr' Hin E). exact Hw.
    + intros Hw. apply (Permutation_in _ (Permutation_sym (sort_perm _))).
      apply in_map. apply filter_In. split; assumption.
  - apply Forall_forall. intros s Hs.
    apply in_map_iff in Hs as [r' [<- Hr']].
    apply filter_In in Hr' as [Hr' _].
    rewrite Forall_forall in Hplain. apply Hplain. exact Hr'.
Qed.

(** * The claims about a run *)

Lemma run_example {m : arithmetic} (radius : R) :
  returned (find_available_restaurants "12:00:00" [user_1]
              [restaurant_1 radius])
  = Ok (mk_frame result_columns
          [user_row (open_frame noon [restaurant_1 radius]) user_1]).
Proof.
  rewrite (run_returns "12:00:00" noon [user_1] [restaurant_1 radius]
             eq_refl).
  reflexivity.
Qed.


Section RadiusCorrectnessExamples.

#[local] Existing Instance ieee_single.




End RadiusCorrectnessExamples.

(** C3, as the code has it: if at least one restaurant with both
    coordinates present is open at the query instant, the run returns one
    row per user row; if no such restaurant is open, it prints the notice
    and returns the empty frame, with no rows and no columns; it does not
    raise. *)
Theorem rows_per_user {m : arithmetic}
  (static_time : string) (now : datetime.time)
  (users : list user) (rs : list restaurant) :
  datetime.strptime_time (Str static_time) = Ok now ->
  ((exists r, In r rs /\ has_coordinates r /\ is_open r now = Ok true) ->
   exists df,
     find_available_restaurants static_time users rs = mk_outcome [] (Ok df)
     /\ length (rows df) = length users) /\
  ((forall r, In r rs -> has_coordinates r -> is_open r now <> Ok true) ->
   find_available_restaurants static_time users rs
   = mk_outcome [notice] (Ok (mk_frame [] []))).
Proof.
  intros Hnow.
  rewrite (find_available_restaurants_spec _ _ users rs Hnow).
  split.
  - intros [r Hr]. apply open_frame_In in Hr.
    destruct (open_frame now rs) as [|r0 odf]; [destruct Hr|].
    eexists. split; [reflexivity | ]. simpl. apply length_map.
  - intros H. destruct (open_frame now rs) as [|r0 odf] eqn:E;
      [reflexivity | ].
    exfalso. assert (Hin : In r0 (open_frame now rs))
      by (rewrite E; left; reflexivity).
    apply open_frame_In in Hin as [H1 [H2 H3]]. exact (H r0 H1 H2 H3).
Qed.

Section RowsPerUserWitnessAt.

#[local] Existing Instance ieee_single.

Lemma rows_per_user_witness :
  ((exists r, In r [restaurant_1 2] /\ has_coordinates r
              /\ is_open r noon = Ok true) ->
   exists df,
     find_available_restaurants "12:00:00" [user_1] [restaurant_1 2]
     = mk_outcome [] (Ok df)
     /\ length (rows df) = length [user_1]) /\
  ((forall r, In r [restaurant_1 2] -> has_coordinates r ->
              is_open r noon <> Ok true) ->
   find_available_restaurants "12:00:00" [user_1] [restaurant_1 2]
   = mk_outcome [notice] (Ok (mk_frame [] []))).
Proof.
  apply (rows_per_user "12:00:00" noon [user_1] [restaurant_1 2]).
  reflexivity.
Defined.

End RowsPerUserWitnessAt.

Section OpenWithoutCoordinatesCounterexampleAt.

#[local] Existing Instance ieee_single.

(** C3 as stated fails on a catalog whose only open restaurant has a
    missing latitude: a restaurant is open at the query instant, and the
    run returns the empty frame for one user row. *)
Lemma open_without_coordinates_counterexample :
  datetime.strptime_time (Str "12:00:00") = Ok noon /\
  (exists r, In r [always_open 1 None (Some (-58.40)%R) 2]
             /\ is_open r noon = Ok true) /\
  find_available_restaurants "12:00:00" [user_1]
    [always_open 1 None (Some (-58.40)%R) 2]
  = mk_outcome [notice] (Ok (mk_frame [] [])) /\
  length (rows (mk_frame [] [])) <> length [user_1].
Proof.
  split; [reflexivity | ]. split.
  - eexists. split; [left; reflexivity | reflexivity].
  - split; [ | discriminate ].
    rewrite (find_available_restaurants_spec "12:00:00" noon _ _ eq_refl).
    reflexivity.
Qed.

End OpenWithoutCoordinatesCounterexampleAt.

(** C4: when the output is not empty it has the length of the user table,
    and its row [i] is the row of input user [i]: its latitude and
    longitude are the degree values of that user, not the radians the
    matcher works on. *)
Theorem order_preservation {m : arithmetic}
  (static_time : string) (now : datetime.time)
  (users : list user) (rs : list restaurant) (df : DataFrame) :
  datetime.strptime_time (Str static_time) = Ok now ->
  returned (find_available_restaurants static_time users rs) = Ok df ->
  rows df <> [] ->
  length (rows df) = length users /\
  forall i u,
    nth_error users i = Some u ->
    exists row,
      nth_error (rows df) i = Some row /\
      row = user_row (open_frame now rs) u /\
      User_latitude row = USER_LATITUDE u /\
      User_Longitude row = USER_LONGITUDE u.
Proof.
  intros Hnow Hdf Hne.
  rewrite (run_returns _ now users rs Hnow) in Hdf. injection Hdf as <-.
  destruct (open_frame now rs) as [|r0 odf]; [contradiction Hne; reflexivity|].
  simpl. split; [apply length_map | ].
  intros i u Hu. exists (user_row (r0 :: odf) u).
  rewrite nth_error_map, Hu. repeat split.
Qed.

Section OrderPreservationWitnessAt.

#[local] Existing Instance ieee_single.

Lemma order_preservation_witness :
  length (rows (mk_frame result_columns
                  [user_row (open_frame noon [restaurant_1 2]) user_1]))
  = length [user_1] /\
  forall i u,
    nth_error [user_1] i = Some u ->
    exists row,
      nth_error
        (rows (mk_frame result_columns
                 [user_row (open_frame noon [restaurant_1 2]) user_1])) i
      = Some row /\
      row = user_row (open_frame noon [restaurant_1 2]) u /\
      User_latitude row = USER_LATITUDE u /\
      User_Longitude row = USER_LONGITUDE u.
Proof.
  apply (order_preservation "12:00:00" noon [user_1] [restaurant_1 2]).
  - reflexivity.
  - apply run_example.
  - discriminate.
Defined.

End OrderPreservationWitnessAt.

Lemma nth_error_combine_seq (A : Type) (l : list A) (s i : nat) (x : A) :
  nth_error l i = Some x ->
  nth_error (combine (seq s (length l)) l) i = Some (s + i, x).
Proof.
  revert s i. induction l as [|a l IH]; intros s [|i] H; try discriminate.
  - injection H as ->. simpl. rewrite Nat.add_0_r. reflexivity.
  - simpl in *. rewrite (IH (S s) i H). f_equal. f_equal. lia.
Qed.

Lemma nth_error_enumerate (A : Type) (l : list A) (i : nat) (x : A) :
  nth_error l i = Some x -> nth_error (enumerate l) i = Some (i, x).
Proof. apply (nth_error_combine_seq A l 0 i x). Qed.

Lemma plain_id_nth (oi : list ident) (j : nat) :
  Forall (fun x => plain_id (np.astype_str x) = true) oi ->
  plain_id (np.astype_str (nth j oi (IntId 0))) = true.
Proof.
  intros H. destruct (nth_in_or_default j oi (IntId 0)) as [Hin | ->].
  - rewrite Forall_forall in H. apply H. exact Hin.
  - reflexivity.
Qed.

(** C5: [process_user_batch] runs its loop body on one array of candidate
    positions per user, and for every user the array holds every position
    of the open-restaurant arrays whose haversine distance to the user is
    within the restaurant's own angular radius: the query with the largest
    radius excludes none of them.  Such a restaurant is among the
    identifiers of the user's row whenever the exact test of the loop
    accepts it. *)
Theorem coarse_query_complete {m : arithmetic} (coords : list (R * R))
  (lats lons : list R) (oc : list (float * float)) (oi : list ident)
  (orad : list R) :
  exists indices_list,
    length indices_list = length coords /\
    process_user_batch coords lats lons oc oi orad
    = map (fun e => batch_row coords lats lons oc oi orad (fst e) (snd e))
          (enumerate indices_list) /\
    forall i uc indices j lat lon radius,
      nth_error coords i = Some uc ->
      nth_error indices_list i = Some indices ->
      nth_error oc j = Some (Some lat, Some lon) ->
      nth_error orad j = Some radius ->
      (great_circle uc (lat, lon) <= radius)%R ->
      In j indices /\
      (keeps uc oc orad j = true ->
       Forall (fun x => plain_id (np.astype_str x) = true) oi ->
       exists row,
         nth_error (process_user_batch coords lats lons oc oi orad) i
         = Some row /\
         In (np.astype_str (nth j oi (IntId 0)))
            (listed_ids (Restaurant_Ids row))).
Proof.
  exists (sklearn.query_radius (sklearn.mk_tree oc) coords (np.max orad)).
  split; [unfold sklearn.query_radius; apply length_map | ].
  split; [reflexivity | ].
  intros i uc indices j lat lon radius Hc Hi Hoc Horad Hd.
  unfold sklearn.query_radius in Hi. rewrite nth_error_map, Hc in Hi.
  injection Hi as <-.
  assert (Hin : In j (sklearn.query_radius_single (sklearn.mk_tree oc) uc
                        (np.max orad))).
  { unfold sklearn.query_radius_single. simpl sklearn.data.
    apply filter_In. split.
    - apply in_seq. split; [lia | ]. simpl.
      apply nth_error_Some. congruence.
    - rewrite (nth_of_nth_error oc j _ (None, None) Hoc).
      unfold sklearn.dist. rewrite haversine_great_circle.
      cbn [np.le]. apply Rleb_true.
      eapply Rle_trans; [exact Hd | ].
      apply max_ge. eapply nth_error_In. exact Horad. }
  split; [exact Hin | ].
  intros Hk Hplain.
  eexists. split.
  - unfold process_user_batch. rewrite nth_error_map.
    rewrite (nth_error_enumerate _ _ i
               (sklearn.query_radius_single (sklearn.mk_tree oc) uc
                  (np.max orad))).
    + reflexivity.
    + unfold sklearn.query_radius. rewrite nth_error_map, Hc. reflexivity.
  - cbn [fst snd]. unfold batch_row. cbn [Restaurant_Ids].
    rewrite (nth_of_nth_error coords i uc (0, 0)%R Hc).
    rewrite (matched_of_indices uc oc oi orad).
    set (l := map _ (filter _ _)).
    change (match l with
            | [] => EmptyString
            | _ :: _ => join ";" (np.sort l)
            end) with (render l).
    rewrite listed_ids_render.
    + apply (Permutation_in _ (Permutation_sym (sort_perm l))).
      unfold l.
      apply (in_map (fun j0 => np.astype_str (nth j0 oi (IntId 0)))).
      apply filter_In. split; [exact Hin | exact Hk].
    + unfold l. apply Forall_forall. intros x Hx.
      apply in_map_iff in Hx as [j0 [<- _]].
      apply plain_id_nth. exact Hplain.
Qed.

(** A restaurant of the catalog that is always open matches a user at
    exactly its coordinates, whatever its non-negative radius. *)
Lemma within_reach_same_place {m : arithmetic} (rs : list restaurant)
  (i : Z) (lat lon radius : R) :
  (0 <= radius)%R ->
  In (always_open i (Some lat) (Some lon) radius) rs ->
  within_reach noon rs (mk_user lat lon)
    (always_open i (Some lat) (Some lon) radius) = true.
Proof.
  intros Hr Hin. apply within_reach_reachable; [exact Hin | ].
  apply (same_single_reachable noon rs (mk_user lat lon) _ lat lon);
    try reflexivity; assumption.
Qed.

(** Restaurants 10 and 2 at the place of the user: the field is ["10;2"]. *)
Lemma run_ids_10_2 {m : arithmetic} :
  returned
    (find_available_restaurants "12:00:00" [user_1]
       [always_open 10 (Some (-34.60)%R) (Some (-58.40)%R) 2;
        always_open 2 (Some (-34.60)%R) (Some (-58.40)%R) 2])
  = Ok (mk_frame result_columns
          [mk_row (-34.60) (-58.40) 2 "10;2"]).
Proof.
  set (L := [always_open 10 (Some (-34.60)%R) (Some (-58.40)%R) 2;
             always_open 2 (Some (-34.60)%R) (Some (-58.40)%R) 2]).
  rewrite (run_returns "12:00:00" noon [user_1] L eq_refl).
  cbn [map]. rewrite (user_row_reached noon L user_1).
  change (open_frame noon L) with L.
  assert (W10 : within_reach noon L user_1
                  (always_open 10 (Some (-34.60)%R) (Some (-58.40)%R) 2)
                = true)
    by (apply within_reach_same_place; [lra | left; reflexivity]).
  assert (W2 : within_reach noon L user_1
                 (always_open 2 (Some (-34.60)%R) (Some (-58.40)%R) 2)
               = true)
    by (apply within_reach_same_place; [lra | right; left; reflexivity]).
  assert (F : filter (within_reach noon L user_1) L = L).
  { set (f := within_reach noon L user_1) in *. unfold L.
    cbn [filter]. rewrite W10, W2. reflexivity. }
  rewrite F. reflexivity.
Qed.

(** C6: the [Restaurant_Id's] field of every row is the identifiers of the
    matched restaurants cast to strings, sorted in the order of strings
    and joined with [";"], and the empty string when nothing matches; ids
    10 and 2 both matching give ["10;2"]. *)
Theorem matched_ids_format {m : arithmetic} (static_time : string)
  (now : datetime.time) (users : list user) (rs : list restaurant)
  (df : DataFrame) (i : nat) (row : result_row) :
  datetime.strptime_time (Str static_time) = Ok now ->
  returned (find_available_restaurants static_time users rs) = Ok df ->
  nth_error (rows df) i = Some row ->
  (exists u matched,
     nth_error users i = Some u /\
     matched = map (fun r => np.astype_str (id r))
                   (filter (within_reach now rs u) rs) /\
     Sorted str_le (np.sort matched) /\
     Permutation (np.sort matched) matched /\
     (matched <> [] -> Restaurant_Ids row = join ";" (np.sort matched)) /\
     (matched = [] -> Restaurant_Ids row = EmptyString)) /\
  join ";" (np.sort [np.astype_str (IntId 10); np.astype_str (IntId 2)])
  = "10;2"%string /\
  returned
    (find_available_restaurants "12:00:00" [user_1]
       [always_open 10 (Some (-34.60)%R) (Some (-58.40)%R) 2;
        always_open 2 (Some (-34.60)%R) (Some (-58.40)%R) 2])
  = Ok (mk_frame result_columns [mk_row (-34.60) (-58.40) 2 "10;2"]).
Proof.
  intros Hnow Hdf Hrow. split; [ | split; [reflexivity | apply run_ids_10_2] ].
  destruct (run_row _ now users rs Hnow df i row Hdf Hrow) as [u [Hu ->]].
  exists u. eexists. split; [exact Hu | ]. split; [reflexivity | ].
  rewrite user_row_reached. simpl.
  split; [apply sort_sorted | ]. split; [apply sort_perm | ].
  fold id_str.
  destruct (map id_str (filter (within_reach now rs u) rs)) as [|x l].
  - split; [congruence | reflexivity].
  - split; [reflexivity | discriminate].
Qed.

Section MatchedIdsFormatWitnessAt.

#[local] Existing Instance ieee_single.

Lemma matched_ids_format_witness :
  (exists u matched,
     nth_error [user_1] 0 = Some u /\
     matched = map (fun r => np.astype_str (id r))
                   (filter (within_reach noon [restaurant_1 2] u)
                           [restaurant_1 2]) /\
     Sorted str_le (np.sort matched) /\
     Permutation (np.sort matched) matched /\
     (matched <> [] ->
      Restaurant_Ids (user_row (open_frame noon [restaurant_1 2]) user_1)
      = join ";" (np.sort matched)) /\
     (matched = [] ->
      Restaurant_Ids (user_row (open_frame noon [restaurant_1 2]) user_1)
      = EmptyString)) /\
  join ";" (np.sort [np.astype_str (IntId 10); np.astype_str (IntId 2)])
  = "10;2"%string /\
  returned
    (find_available_restaurants "12:00:00" [user_1]
       [always_open 10 (Some (-34.60)%R) (Some (-58.40)%R) 2;
        always_open 2 (Some (-34.60)%R) (Some (-58.40)%R) 2])
  = Ok (mk_frame result_columns [mk_row (-34.60) (-58.40) 2 "10;2"]).
Proof.
  apply (matched_ids_format "12:00:00" noon [user_1] [restaurant_1 2]
           (mk_frame result_columns
              [user_row (open_frame noon [restaurant_1 2]) user_1])
           0 (user_row (open_frame noon [restaurant_1 2]) user_1)).
  - reflexivity.
  - apply run_example.
  - reflexivity.
Defined.

End MatchedIdsFormatWitnessAt.



Section ZeroRadiusExamples.

#[local] Existing Instance ieee_single.



End ZeroRadiusExamples.

Lemma select_In (A : Type) (l : list A) (mask : list bool) (x : A) :
  In x (np.select l mask) -> In x l.
Proof.
  unfold np.select. intros H. apply in_map_iff in H as [[y b] [<- H]].
  apply filter_In in H as [H _]. apply in_combine_l in H. exact H.
Qed.

Lemma dropna_with_coordinates (rs : list restaurant) :
  dropna rs = with_coordinates rs.
Proof.
  unfold dropna, with_coordinates. apply filter_ext. intros r.
  destruct (latitude r), (longitude r); reflexivity.
Qed.

Lemma with_coordinates_idem (rs : list restaurant) :
  with_coordinates (with_coordinates rs) = with_coordinates rs.
Proof.
  unfold with_coordinates. rewrite filter_filter. apply filter_ext.
  intros r. destruct (negb _ && negb _); reflexivity.
Qed.

(** C9: the run is the matcher on the rows of the catalog that have both
    coordinates and are open at the query instant: the rows with a
    missing latitude or longitude are dropped before matching, every row
    of the coordinate array handed to [process_user_batch] has valid
    coordinates, a run on the catalog without the dropped rows gives the
    same, and a dropped restaurant is in no user's identifiers. *)
Theorem dropna_valid_coordinates {m : arithmetic} (static_time : string)
  (now : datetime.time) (users : list user) (rs : list restaurant) :
  datetime.strptime_time (Str static_time) = Ok now ->
  (forall r, In r (matcher_input now rs)
             <-> In r rs /\ has_coordinates r /\ is_open r now = Ok true) /\
  Forall valid_coordinates (open_coords (matcher_input now rs)) /\
  find_available_restaurants static_time users rs
  = match matcher_input now rs with
    | [] => mk_outcome [notice] (Ok (mk_frame [] []))
    | _ :: _ =>
        mk_outcome []
          (Ok (mk_frame result_columns
                 (concat
                    (Parallel run_batch
                       (batches (user_coords users)
                          (map USER_LATITUDE users)
                          (map USER_LONGITUDE users)
                          (open_coords (matcher_input now rs))
                          (open_ids (matcher_input now rs))
                          (open_radii (matcher_input now rs)))))))
    end /\
  find_available_restaurants static_time users rs
  = find_available_restaurants static_time users (with_coordinates rs) /\
  (forall df i row r,
     returned (find_available_restaurants static_time users rs) = Ok df ->
     nth_error (rows df) i = Some row ->
     NoDup (map id_str rs) ->
     Forall (fun x => plain_id (id_str x) = true) rs ->
     In r rs ->
     latitude r = None \/ longitude r = None ->
     ~ In (id_str r) (listed_ids (Restaurant_Ids row))).
Proof.
  intros Hnow.
  assert (Hframe : matcher_input now rs = open_frame now rs).
  { unfold matcher_input, open_frame. rewrite dropna_with_coordinates.
    reflexivity. }
  split; [intros r; rewrite Hframe; apply open_frame_In | ].
  split.
  { apply Forall_forall. intros p Hp.
    apply in_map_iff in Hp as [r [<- Hr]].
    rewrite Hframe in Hr. apply open_frame_In in Hr as [_ [[Hla Hlo] _]].
    unfold valid_coordinates, lat_rad, lon_rad. cbn [fst snd].
    destruct (latitude r), (longitude r); try congruence.
    split; discriminate. }
  split.
  { unfold find_available_restaurants.
    rewrite Hnow, apply_rows_is_open, select_filter.
    rewrite dropna_with_coordinates. fold (matcher_input now rs).
    destruct (matcher_input now rs); reflexivity. }
  split.
  { unfold find_available_restaurants.
    rewrite !dropna_with_coordinates, with_coordinates_idem. reflexivity. }
  intros df i row r Hdf Hrow Hnd Hplain Hin Hmiss Hl.
  destruct (run_row _ now users rs Hnow df i row Hdf Hrow) as [u [Hu ->]].
  rewrite user_row_reached in Hl. cbn [Restaurant_Ids] in Hl.
  apply (listed_ids_reached now u rs r Hnd Hplain Hin) in Hl.
  unfold within_reach, matched in Hl.
  apply andb_true_iff in Hl as [Hl _]. apply andb_true_iff in Hl as [_ Hl].
  destruct (in_radius_has_coordinates _ _ Hl) as [Hla Hlo].
  destruct Hmiss; contradiction.
Qed.

Section DropnaExamples.

#[local] Existing Instance ieee_single.

Lemma dropna_valid_coordinates_witness :
  Forall valid_coordinates
    (open_coords
       (matcher_input noon
          [always_open 1 None (Some (-58.40)%R) 2; restaurant_1 2])) /\
  find_available_restaurants "12:00:00" [user_1]
    [always_open 1 None (Some (-58.40)%R) 2; restaurant_1 2]
  = find_available_restaurants "12:00:00" [user_1]
      (with_coordinates
         [always_open 1 None (Some (-58.40)%R) 2; restaurant_1 2]).
Proof.
  destruct (dropna_valid_coordinates "12:00:00" noon [user_1]
              [always_open 1 None (Some (-58.40)%R) 2; restaurant_1 2]
              eq_refl) as [_ [H1 [_ [H2 _]]]].
  split; [exact H1 | exact H2].
Defined.

End DropnaExamples.

(** C10: the slices of 5000 users partition the user table in order, and
    running the matcher on every slice and concatenating the results in
    slice order gives the rows of one run of the matcher on the whole
    table; the row of a user depends only on that user and the shared
    open-restaurant arrays. *)
Theorem batching_equivalence {m : arithmetic} (users : list user)
  (oc : list (float * float)) (oi : list ident) (orad : list R) :
  let lat_array := map USER_LATITUDE users in
  let lon_array := map USER_LONGITUDE users in
  let chunks := batches (user_coords users) lat_array lon_array oc oi orad in
  let whole :=
    process_user_batch (user_coords users) lat_array lon_array oc oi orad in
  concat (map batch_users chunks) = user_coords users /\
  Forall (fun b => length (batch_users b) <= 5000) chunks /\
  concat (Parallel run_batch chunks) = whole /\
  (forall i u, nth_error users i = Some u ->
               nth_error whole i = Some (matcher_row oc oi orad u)).
Proof.
  cbv zeta. rewrite batches_rows, process_user_batch_rows.
  split; [ | split; [ | split ] ].
  - unfold batches. rewrite map_map. simpl.
    apply (concat_slices (user_coords users) batch_size batch_size_pos).
  - unfold batches. apply Forall_forall. intros b Hb.
    apply in_map_iff in Hb as [i [<- _]]. simpl. unfold slice.
    rewrite length_firstn. fold batch_size. lia.
  - reflexivity.
  - intros i u Hu. rewrite nth_error_map, Hu. reflexivity.
Qed.

(** * The scenarios of the test suite *)

Example test_is_open_basic :
  is_open (hours "10:00:00" "18:00:00") noon = Ok true.
Proof. reflexivity. Qed.

Example test_is_open_overnight :
  is_open (hours "22:00:00" "06:00:00") (datetime.mk_time 3 0 0 0) = Ok true.
Proof. reflexivity. Qed.

Example test_is_open_invalid_time_format :
  is_open (hours "invalid_time" "invalid_time") noon = Ok false.
Proof. reflexivity. Qed.

Example strptime_single_digits :
  datetime.strptime_time (Str "9:5:3") = Ok (datetime.mk_time 9 5 3 0).
Proof. reflexivity. Qed.

Example strptime_hour_24 :
  datetime.strptime_time (Str "24:00:00") = Raise ValueError.
Proof. reflexivity. Qed.

Example strptime_leap_second :
  datetime.strptime_time (Str "23:59:60") = Raise ValueError.
Proof. reflexivity. Qed.

Example strptime_unconverted_data :
  datetime.strptime_time (Str "12:00:00 ") = Raise ValueError.
Proof. reflexivity. Qed.

Example strptime_missing_cell :
  datetime.strptime_time NaN = Raise TypeError.
Proof. reflexivity. Qed.

(** A run with an open restaurant, row by row. *)
Lemma run_reached {m : arithmetic} (static_time : string)
  (now : datetime.time) (users : list user) (rs : list restaurant) :
  datetime.strptime_time (Str static_time) = Ok now ->
  open_frame now rs <> [] ->
  find_available_restaurants static_time users rs
  = mk_outcome []
      (Ok (mk_frame result_columns
             (map (fun u =>
                     mk_row (USER_LATITUDE u) (USER_LONGITUDE u)
                       (length (filter (within_reach now rs u) rs))
                       (render (map id_str
                                  (filter (within_reach now rs u) rs))))
                  users))).
Proof.
  intros Hnow Hne.
  rewrite (find_available_restaurants_spec _ _ users rs Hnow).
  destruct (open_frame now rs) as [|r odf] eqn:E; [congruence | ].
  rewrite <- E. do 3 f_equal. apply map_ext. intros u.
  apply user_row_reached.
Qed.

Section TestSuite.

#[local] Existing Instance ieee_single.

Example test_find_available_restaurants_single_match :
  find_available_restaurants "12:00:00" [user_1] [restaurant_1 2]
  = mk_outcome [] (Ok (mk_frame result_columns
                         [mk_row (-34.60) (-58.40) 1 "1"])).
Proof.
  rewrite (run_reached "12:00:00" noon _ _ eq_refl) by discriminate.
  unfold restaurant_1, user_1. cbn [map filter].
  rewrite within_reach_same_place by (try lra; left; reflexivity).
  reflexivity.
Qed.

Example test_find_available_restaurants_no_match_due_to_time :
  find_available_restaurants "12:00:00" [user_1]
    [mk_restaurant (IntId 2) (Some (-34.60)%R) (Some (-58.40)%R) 2
       (Str "20:00:00") (Str "23:00:00")]
  = mk_outcome [notice] (Ok (mk_frame [] [])).
Proof.
  rewrite (find_available_restaurants_spec "12:00:00" noon _ _ eq_refl).
  reflexivity.
Qed.

Example test_no_restaurants_open :
  find_available_restaurants "12:00:00" [user_1]
    [mk_restaurant (IntId 4) (Some (-34.60)%R) (Some (-58.40)%R) 2
       (Str "00:00:00") (Str "01:00:00")]
  = mk_outcome [notice] (Ok (mk_frame [] [])).
Proof.
  rewrite (find_available_restaurants_spec "12:00:00" noon _ _ eq_refl).
  reflexivity.
Qed.

End TestSuite.

(** * Further properties of a run *)

Lemma render_permutation (l l' : list string) :
  Permutation l l' -> render l = render l'.
Proof.
  intros P. unfold render. rewrite (sort_permutation l l' P).
  destruct l as [|x l], l' as [|y l']; try reflexivity.
  apply Permutation_nil in P. discriminate P.
Qed.

(** The largest element does not depend on the order of the array. *)
Lemma max_permutation (l l' : list R) :
  Permutation l l' -> np.max l = np.max l'.
Proof.
  intros P. destruct l as [|x l].
  - apply Permutation_nil in P. rewrite P. reflexivity.
  - assert (H1 : In (np.max (x :: l)) l').
    { apply (Permutation_in _ P). apply MaxRlist_P2.
      exists x. left. reflexivity. }
    assert (H2 : In (np.max l') (x :: l)).
    { apply (Permutation_in _ (Permutation_sym P)). apply MaxRlist_P2.
      exists x. apply (Permutation_in _ P). left. reflexivity. }
    apply max_ge in H1. apply max_ge in H2. apply Rle_antisym; assumption.
Qed.

Lemma user_row_permutation {m : arithmetic}
  (odf odf' : list restaurant) (u : user) :
  Permutation odf odf' -> user_row odf u = user_row odf' u.
Proof.
  intros P. unfold user_row.
  assert (E : matched odf (user_coord u) = matched odf' (user_coord u)).
  { unfold matched.
    rewrite (max_permutation (open_radii odf) (open_radii odf'))
      by (unfold open_radii; apply Permutation_map; exact P).
    reflexivity. }
  rewrite E.
  assert (Q : Permutation
                (map id_str (filter (matched odf' (user_coord u)) odf))
                (map id_str (filter (matched odf' (user_coord u)) odf')))
    by (apply Permutation_map, filter_permutation; exact P).
  rewrite (Permutation_length Q), (render_permutation _ _ Q). reflexivity.
Qed.

Lemma find_unparsed {m : arithmetic} (static_time : string) (users : list user)
  (rs : list restaurant) (e : exn) :
  datetime.strptime_time (Str static_time) = Raise e ->
  find_available_restaurants static_time users rs = mk_outcome [] (Raise e).
Proof.
  intros H. unfold find_available_restaurants. rewrite H. reflexivity.
Qed.

(** X1: the order of the rows of the restaurant catalog does not matter:
    a run on a rearranged catalog prints and returns the same. *)
Theorem catalog_order_irrelevant {m : arithmetic}
  (static_time : string) (users : list user)
  (rs rs' : list restaurant) :
  Permutation rs rs' ->
  find_available_restaurants static_time users rs
  = find_available_restaurants static_time users rs'.
Proof.
  intros P.
  destruct (datetime.strptime_time (Str static_time)) as [now|e] eqn:E.
  - rewrite !(find_available_restaurants_spec _ _ users _ E).
    assert (Q : Permutation (open_frame now rs) (open_frame now rs')).
    { unfold open_frame, dropna. do 2 apply filter_permutation. exact P. }
    destruct (open_frame now rs) as [|r odf], (open_frame now rs') as [|r' odf'].
    + reflexivity.
    + apply Permutation_nil in Q. discriminate Q.
    + apply Permutation_sym, Permutation_nil in Q. discriminate Q.
    + do 3 f_equal. apply map_ext. intros u.
      apply user_row_permutation. exact Q.
  - rewrite !(find_unparsed _ users _ e E). reflexivity.
Qed.

Section CatalogOrderIrrelevantWitnessAt.

#[local] Existing Instance ieee_single.

Lemma catalog_order_irrelevant_witness :
  find_available_restaurants "12:00:00" [user_1]
    [restaurant_1 2; always_open 3 (Some (-35.00)%R) (Some (-58.90)%R) 1]
  = find_available_restaurants "12:00:00" [user_1]
      [always_open 3 (Some (-35.00)%R) (Some (-58.90)%R) 1; restaurant_1 2].
Proof.
  apply (catalog_order_irrelevant "12:00:00" [user_1]). apply perm_swap.
Defined.

End CatalogOrderIrrelevantWitnessAt.

Lemma open_frame_idempotent (now : datetime.time) (rs : list restaurant) :
  open_frame now (open_frame now rs) = open_frame now rs.
Proof.
  unfold open_frame, dropna. rewrite !filter_filter.
  apply filter_ext. intros r.
  destruct (latitude r), (longitude r), (is_open_at now r); reflexivity.
Qed.

(** X3: the rows that are closed at the query instant or lack a
    coordinate have no effect: a run on the catalog stripped of them
    prints and returns the same as a run on the whole catalog. *)
Theorem closed_rows_irrelevant {m : arithmetic}
  (static_time : string) (now : datetime.time)
  (users : list user) (rs : list restaurant) :
  datetime.strptime_time (Str static_time) = Ok now ->
  find_available_restaurants static_time users (open_frame now rs)
  = find_available_restaurants static_time users rs.
Proof.
  intros Hnow.
  rewrite !(find_available_restaurants_spec _ _ users _ Hnow).
  rewrite open_frame_idempotent. reflexivity.
Qed.

Section ClosedRowsIrrelevantWitnessAt.

#[local] Existing Instance ieee_single.

Lemma closed_rows_irrelevant_witness :
  find_available_restaurants "12:00:00" [user_1]
    (open_frame noon
       [restaurant_1 2; always_open 7 None (Some (-58.40)%R) 2;
        mk_restaurant (IntId 4) (Some (-34.60)%R) (Some (-58.40)%R) 2
          (Str "00:00:00") (Str "01:00:00")])
  = find_available_restaurants "12:00:00" [user_1]
      [restaurant_1 2; always_open 7 None (Some (-58.40)%R) 2;
       mk_restaurant (IntId 4) (Some (-34.60)%R) (Some (-58.40)%R) 2
         (Str "00:00:00") (Str "01:00:00")].
Proof.
  apply (closed_rows_irrelevant "12:00:00" noon [user_1]). reflexivity.
Defined.

End ClosedRowsIrrelevantWitnessAt.

Lemma filter_length_le (A : Type) (f : A -> bool) (l : list A) :
  length (filter f l) <= length l.
Proof.
  induction l as [|a l IH]; simpl; [lia|]. destruct (f a); simpl; lia.
Qed.

(** X4: in every row the count is the number of identifiers a reader
    finds in the [Restaurant_Id's] field, when the identifiers are not
    empty and hold no [";"]; the count is at most the number of open
    restaurants with coordinates, hence at most the size of the catalog. *)
Theorem count_matches_listed_ids {m : arithmetic} (static_time : string)
  (now : datetime.time) (users : list user) (rs : list restaurant)
  (df : DataFrame) (i : nat) (row : result_row) :
  datetime.strptime_time (Str static_time) = Ok now ->
  returned (find_available_restaurants static_time users rs) = Ok df ->
  nth_error (rows df) i = Some row ->
  (Forall (fun r => plain_id (id_str r) = true) rs ->
   length (listed_ids (Restaurant_Ids row))
   = Available_restaurant_count row) /\
  Available_restaurant_count row <= length (open_frame now rs) /\
  length (open_frame now rs) <= length rs.
Proof.
  intros Hnow Hdf Hrow.
  destruct (run_row _ now users rs Hnow df i row Hdf Hrow) as [u [Hu ->]].
  split; [ | split ].
  - intros Hplain. rewrite user_row_reached. simpl.
    rewrite listed_ids_render.
    + rewrite (Permutation_length (sort_perm _)), length_map. reflexivity.
    + apply Forall_forall. intros s Hs.
      apply in_map_iff in Hs as [r [<- Hr]].
      apply filter_In in Hr as [Hr _].
      rewrite Forall_forall in Hplain. apply Hplain. exact Hr.
  - unfold user_row. simpl. rewrite length_map. apply filter_length_le.
  - unfold open_frame, dropna.
    eapply Nat.le_trans; apply filter_length_le.
Qed.

Section CountMatchesListedIdsWitnessAt.

#[local] Existing Instance ieee_single.

Lemma count_matches_listed_ids_witness :
  (Forall (fun r => plain_id (id_str r) = true) [restaurant_1 2] ->
   length (listed_ids
             (Restaurant_Ids
                (user_row (open_frame noon [restaurant_1 2]) user_1)))
   = Available_restaurant_count
       (user_row (open_frame noon [restaurant_1 2]) user_1)) /\
  Available_restaurant_count
    (user_row (open_frame noon [restaurant_1 2]) user_1)
  <= length (open_frame noon [restaurant_1 2]) /\
  length (open_frame noon [restaurant_1 2]) <= length [restaurant_1 2].
Proof.
  apply (count_matches_listed_ids "12:00:00" noon [user_1] [restaurant_1 2]
           (mk_frame result_columns
              [user_row (open_frame noon [restaurant_1 2]) user_1])
           0 (user_row (open_frame noon [restaurant_1 2]) user_1)).
  - reflexivity.
  - apply run_example.
  - reflexivity.
Defined.

End CountMatchesListedIdsWitnessAt.

Section EmptyIdCountedNotListedAt.

#[local] Existing Instance ieee_single.

(** An identifier that is the empty text is counted and leaves no trace in
    the field: the hypothesis of X4 on the identifiers is needed. *)
Example empty_id_counted_not_listed :
  find_available_restaurants "12:00:00" [user_1]
    [mk_restaurant (StrId "") (Some (-34.60)%R) (Some (-58.40)%R) 2
       (Str "00:00:00") (Str "23:59:59")]
  = mk_outcome [] (Ok (mk_frame result_columns
                         [mk_row (-34.60) (-58.40) 1 ""])).
Proof.
  rewrite (run_reached "12:00:00" noon _ _ eq_refl) by discriminate.
  cbn [map filter].
  assert (H : within_reach noon
                [mk_restaurant (StrId "") (Some (-34.60)%R)
                   (Some (-58.40)%R) 2 (Str "00:00:00") (Str "23:59:59")]
                user_1
                (mk_restaurant (StrId "") (Some (-34.60)%R)
                   (Some (-58.40)%R) 2 (Str "00:00:00") (Str "23:59:59"))
              = true).
  { apply within_reach_reachable; [left; reflexivity | ].
    apply (same_single_reachable noon _ user_1 _ (-34.60) (-58.40));
      try reflexivity; [left; reflexivity | simpl; lra]. }
  rewrite H. reflexivity.
Qed.

End EmptyIdCountedNotListedAt.



Section NegativeRadiusExamples.

#[local] Existing Instance ieee_single.



End NegativeRadiusExamples.

Lemma Forall2_le_In (l l' : list R) (y : R) :
  Forall2 Rle l l' -> In y l -> exists z, In z l' /\ (y <= z)%R.
Proof.
  induction 1 as [|a b l l' Hab _ IH]; intros Hin; [destruct Hin | ].
  destruct Hin as [<- | Hin].
  - exists b. split; [left; reflexivity | exact Hab].
  - destruct (IH Hin) as [z [Hz Hle]]. exists z. split; [right | ]; assumption.
Qed.

Lemma max_monotone (l l' : list R) :
  Forall2 Rle l l' -> (np.max l <= np.max l')%R.
Proof.
  intros F. destruct l as [|x l].
  - inversion F. apply Rle_refl.
  - assert (Hin : In (np.max (x :: l)) (x :: l))
      by (apply MaxRlist_P2; exists x; left; reflexivity).
    destruct (Forall2_le_In _ _ _ F Hin) as [z [Hz Hle]].
    eapply Rle_trans; [exact Hle | apply max_ge; exact Hz].
Qed.

Section Wider.

Context {m : arithmetic}.
Variable now : datetime.time.

Lemma wider_open (r r' : restaurant) :
  wider r r' -> is_open_at now r' = is_open_at now r.
Proof.
  intros [_ [_ [_ [Ho [Hc _]]]]]. unfold is_open_at, is_open.
  rewrite Ho, Hc. reflexivity.
Qed.

Lemma wider_frames (rs rs' : list restaurant) :
  Forall2 wider rs rs' ->
  Forall2 wider (open_frame now rs) (open_frame now rs').
Proof.
  unfold open_frame, dropna. rewrite !filter_filter.
  induction 1 as [|r r' rs rs' W _ IH]; [constructor|].
  cbn [filter]. rewrite (wider_open r r' W).
  pose proof W as [_ [Hla [Hlo _]]]. rewrite Hla, Hlo.
  destruct (latitude r), (longitude r), (is_open_at now r); simpl;
    try exact IH.
  constructor; assumption.
Qed.

Lemma wider_open_frame (rs rs' : list restaurant) :
  Forall2 wider rs rs' ->
  length (open_frame now rs) = length (open_frame now rs').
Proof.
  intros W. apply wider_frames in W.
  induction W; simpl; congruence.
Qed.

Lemma wider_single_radius (r r' : restaurant) :
  wider r r' -> (single_radius r <= single_radius r')%R.
Proof.
  intros [_ [_ [_ [_ [_ Hrad]]]]]. unfold single_radius.
  apply fl_mono. apply Rmult_le_compat_r.
  - left. apply Rinv_0_lt_compat. lra.
  - apply fl_mono. exact Hrad.
Qed.

Lemma wider_max (rs rs' : list restaurant) :
  Forall2 wider rs rs' ->
  (np.max (open_radii (open_frame now rs))
   <= np.max (open_radii (open_frame now rs')))%R.
Proof.
  intros W. apply wider_frames in W. apply max_monotone.
  unfold open_radii. induction W as [|r r' l l' Hw _ IH]; [constructor | ].
  cbn [map]. constructor; [ | exact IH].
  apply (wider_single_radius r r' Hw).
Qed.

Variable rs rs' : list restaurant.
Hypothesis catalogs : Forall2 wider rs rs'.

Lemma wider_within_reach (u : user) (r r' : restaurant) :
  wider r r' ->
  within_reach now rs u r = true -> within_reach now rs' u r' = true.
Proof.
  intros W H. pose proof (wider_open r r' W) as Hopen.
  pose proof (wider_single_radius r r' W) as Hrad.
  pose proof (wider_max rs rs' catalogs) as Hmax.
  destruct W as [_ [Hla [Hlo _]]].
  unfold within_reach, matched in *.
  apply andb_true_iff in H as [H Ho].
  apply andb_true_iff in H as [Hc Hd].
  rewrite Hopen, Ho, andb_true_r. apply andb_true_iff. split.
  - unfold coarse, lat_rad, lon_rad in *. rewrite Hla, Hlo.
    destruct (sklearn.dist _ _) as [c|]; [ | discriminate Hc].
    cbn [np.le] in *. apply Rleb_true in Hc. apply Rleb_true. lra.
  - unfold in_radius in *. rewrite candidate_radius_single in *.
    unfold lat_rad, lon_rad in *. rewrite Hla, Hlo.
    destruct (exact_distance _ _) as [c|]; [ | discriminate Hd].
    cbn [np.le] in *. apply Rleb_true in Hd. apply Rleb_true. lra.
Qed.

Lemma wider_count (u : user) (l l' : list restaurant) :
  Forall2 wider l l' ->
  length (filter (within_reach now rs u) l)
  <= length (filter (within_reach now rs' u) l').
Proof.
  induction 1 as [|r r' l l' W _ IH]; [reflexivity|].
  cbn [filter]. destruct (within_reach now rs u r) eqn:E.
  - rewrite (wider_within_reach u r r' W E). simpl. lia.
  - destruct (within_reach now rs' u r'); simpl; lia.
Qed.

Lemma wider_ids (u : user) (l l' : list restaurant) (s : string) :
  Forall2 wider l l' ->
  In s (map id_str (filter (within_reach now rs u) l)) ->
  In s (map id_str (filter (within_reach now rs' u) l')).
Proof.
  induction 1 as [|r r' l l' W _ IH]; [intros H; exact H|].
  cbn [filter]. destruct (within_reach now rs u r) eqn:E.
  - rewrite (wider_within_reach u r r' W E). simpl.
    intros [H|H]; [left | right; exact (IH H)].
    destruct W as [Hid _]. unfold id_str in *. congruence.
  - intros H. apply IH in H.
    destruct (within_reach now rs' u r'); [right | ]; exact H.
Qed.

End Wider.

(** X6: enlarging the radii of restaurants, everything else unchanged,
    loses no match: the result has the same number of rows, every user's
    count does not decrease, and every identifier listed for a user is
    still listed. *)
Theorem wider_radius_keeps_matches {m : arithmetic} (static_time : string)
  (now : datetime.time) (users : list user) (rs rs' : list restaurant)
  (df df' : DataFrame) :
  datetime.strptime_time (Str static_time) = Ok now ->
  Forall2 wider rs rs' ->
  returned (find_available_restaurants static_time users rs) = Ok df ->
  returned (find_available_restaurants static_time users rs') = Ok df' ->
  length (rows df) = length (rows df') /\
  forall i row,
    nth_error (rows df) i = Some row ->
    exists row',
      nth_error (rows df') i = Some row' /\
      Available_restaurant_count row <= Available_restaurant_count row' /\
      (Forall (fun r => plain_id (id_str r) = true) rs ->
       forall s, In s (listed_ids (Restaurant_Ids row)) ->
                 In s (listed_ids (Restaurant_Ids row'))).
Proof.
  intros Hnow W Hdf Hdf'.
  rewrite (run_returns _ now users rs Hnow) in Hdf.
  rewrite (run_returns _ now users rs' Hnow) in Hdf'.
  injection Hdf as <-. injection Hdf' as <-.
  pose proof (wider_open_frame now rs rs' W) as Hlen.
  destruct (open_frame now rs) as [|r odf] eqn:E,
           (open_frame now rs') as [|r' odf'] eqn:E';
    try discriminate Hlen.
  - split; [reflexivity | ]. intros i row H. destruct i; discriminate H.
  - rewrite <- E, <- E'. simpl. split; [rewrite !length_map; reflexivity|].
    intros i row Hrow. rewrite nth_error_map in *.
    destruct (nth_error users i) as [u|]; [ | discriminate Hrow ].
    injection Hrow as <-. eexists. split; [reflexivity | ].
    rewrite !user_row_reached. simpl.
    split; [apply (wider_count now rs rs' W); exact W | ].
    intros Hplain s Hs.
    assert (Hplain' : Forall (fun r => plain_id (id_str r) = true) rs').
    { clear - W Hplain. induction W as [|x y l l' Hw _ IH];
        [constructor | ].
      inversion Hplain; subst. constructor; [ | apply IH; assumption ].
      destruct Hw as [Hid _]. unfold id_str in *. rewrite Hid. assumption. }
    assert (Hl : forall c l,
                 Forall (fun r => plain_id (id_str r) = true) l ->
                 Forall (fun s => plain_id s = true)
                   (map id_str (filter (within_reach now c u) l))).
    { intros c l Hl. apply Forall_forall. intros x Hx.
      apply in_map_iff in Hx as [y [<- Hy]]. apply filter_In in Hy as [Hy _].
      rewrite Forall_forall in Hl. apply Hl. exact Hy. }
    rewrite listed_ids_render in * by (apply Hl; assumption).
    apply (Permutation_in _ (Permutation_sym (sort_perm _))).
    apply (Permutation_in _ (sort_perm _)) in Hs.
    apply (wider_ids now rs rs' W u rs rs' s W Hs).
Qed.

Section WiderRadiusKeepsMatchesWitnessAt.

#[local] Existing Instance ieee_single.

Lemma wider_radius_keeps_matches_witness :
  length (rows (mk_frame result_columns
                  [user_row (open_frame noon [restaurant_1 0]) user_1]))
  = length (rows (mk_frame result_columns
                    [user_row (open_frame noon [restaurant_1 2]) user_1]))
  /\
  forall i row,
    nth_error
      (rows (mk_frame result_columns
               [user_row (open_frame noon [restaurant_1 0]) user_1])) i
    = Some row ->
    exists row',
      nth_error
        (rows (mk_frame result_columns
                 [user_row (open_frame noon [restaurant_1 2]) user_1])) i
      = Some row' /\
      Available_restaurant_count row <= Available_restaurant_count row' /\
      (Forall (fun r => plain_id (id_str r) = true) [restaurant_1 0] ->
       forall s, In s (listed_ids (Restaurant_Ids row)) ->
                 In s (listed_ids (Restaurant_Ids row'))).
Proof.
  apply (wider_radius_keeps_matches "12:00:00" noon [user_1]
           [restaurant_1 0] [restaurant_1 2]).
  - reflexivity.
  - constructor; [ | constructor ].
    repeat split; try reflexivity. simpl. lra.
  - apply run_example.
  - apply run_example.
Defined.

End WiderRadiusKeepsMatchesWitnessAt.

(** * The shape of the batches *)

Lemma range_from_steps (bs : nat) :
  0 < bs ->
  forall fuel s n,
    n - s <= fuel ->
    range_from fuel s n bs
    = map (fun k => s + k * bs) (seq 0 ((n - s + bs - 1) / bs)).
Proof.
  intros Hbs. induction fuel as [|fuel IH]; intros s n Hf.
  - simpl. replace (n - s + bs - 1) with (bs - 1) by lia.
    rewrite Nat.div_small by lia. reflexivity.
  - simpl. destruct (Nat.ltb_spec s n) as [Hlt|Hge].
    + rewrite IH by lia.
      replace (n - s + bs - 1) with ((n - s - 1) + 1 * bs) by lia.
      rewrite Nat.div_add by lia. rewrite Nat.add_1_r. cbn [seq map].
      f_equal; [lia | ].
      rewrite <- seq_shift, map_map.
      assert (E : (n - (s + bs) + bs - 1) / bs = (n - s - 1) / bs).
      { destruct (Nat.le_gt_cases bs (n - s)) as [H|H].
        - f_equal. lia.
        - replace (n - (s + bs) + bs - 1) with (bs - 1) by lia.
          rewrite !Nat.div_small by lia. reflexivity. }
      rewrite E. apply map_ext. intros k. lia.
    + replace (n - s + bs - 1) with (bs - 1) by lia.
      rewrite Nat.div_small by lia. reflexivity.
Qed.

Lemma range_steps (n bs : nat) :
  0 < bs ->
  range 0 n bs = map (fun k => k * bs) (seq 0 ((n + bs - 1) / bs)).
Proof.
  intros Hbs. unfold range. rewrite (range_from_steps bs Hbs) by lia.
  rewrite Nat.sub_0_r. apply map_ext. intros k. lia.
Qed.

Lemma slice_length (A : Type) (l : list A) (i bs : nat) :
  length (slice l i (i + bs)) = Nat.min bs (length l - i).
Proof.
  unfold slice. rewrite length_firstn, length_skipn. f_equal. lia.
Qed.

(** X7: the users are cut into [ceil(n / 5000)] batches; every batch holds
    at least one and at most 5000 users, its three user arrays have the
    same length, it carries the open-restaurant arrays unchanged, and
    every batch but the last holds exactly 5000 users.  So the matcher is
    never run on an empty batch, and not at all when there is no user. *)
Theorem batches_shape {m : arithmetic}
  (users : list user) (oc : list (float * float))
  (oi : list ident) (orad : list R) :
  let chunks :=
    batches (user_coords users) (map USER_LATITUDE users)
      (map USER_LONGITUDE users) oc oi orad in
  length chunks = (length users + 4999) / 5000 /\
  (forall k b,
     nth_error chunks k = Some b ->
     let '(coords, lats, lons, oc', oi', orad') := b in
     1 <= length coords <= 5000 /\
     length lats = length coords /\
     length lons = length coords /\
     (S k < length chunks -> length coords = 5000) /\
     oc' = oc /\ oi' = oi /\ orad' = orad).
Proof.
  cbv zeta. unfold batches, user_coords.
  rewrite !length_map, (range_steps (length users) batch_size batch_size_pos).
  rewrite !length_map, length_seq.
  replace (length users + batch_size - 1) with (length users + 4999)
    by (unfold batch_size; lia).
  fold batch_size.
  split; [reflexivity | ].
  intros k b Hb. rewrite map_map, nth_error_map in Hb.
  destruct (nth_error (seq 0 ((length users + 4999) / batch_size)) k)
    as [j|] eqn:Ej; [ | discriminate Hb ].
  injection Hb as <-.
  assert (Hk : k < (length users + 4999) / batch_size).
  { rewrite <- (length_seq ((length users + 4999) / batch_size) 0).
    apply nth_error_Some. congruence. }
  assert (j = k).
  { apply nth_error_nth with (d := 0) in Ej. rewrite seq_nth in Ej; lia. }
  subst j.
  rewrite !slice_length, !length_map.
  pose proof (Nat.Div0.mul_div_le (length users + 4999) batch_size) as Hm.
  pose proof batch_size_pos as Hpos.
  assert (Hb5 : batch_size = 5000) by reflexivity.
  repeat split; try reflexivity; lia.
Qed.

Section BatchRowOrderWitnessAt.

#[local] Existing Instance ieee_single.

Lemma batch_row_order_witness :
  batch_row [(0, 0)%R] [1%R] [2%R]
    [(Some 0%R, Some 0%R); (Some 0%R, Some 0%R)] [IntId 10; IntId 2]
    [1%R; 1%R] 0 [0; 1]
  = batch_row [(0, 0)%R] [1%R] [2%R]
      [(Some 0%R, Some 0%R); (Some 0%R, Some 0%R)] [IntId 10; IntId 2]
      [1%R; 1%R] 0 [1; 0].
Proof.
  apply (batch_row_order (0, 0)%R
           [(Some 0%R, Some 0%R); (Some 0%R, Some 0%R)] [IntId 10; IntId 2]
           [1%R; 1%R] [(0, 0)%R] [1%R] [2%R] 0 [0; 1] [1; 0]).
  - reflexivity.
  - apply perm_swap.
Defined.

End BatchRowOrderWitnessAt.

Section OverTheReals.

#[local] Existing Instance reals.

(** X9: over the reals, where no operation rounds, the distance of lines
    64-67 between two points is a number between 0 and pi, and it is the
    same from the first point to the second as from the second to the
    first. *)
Theorem exact_distance_symmetric_bounded (lat1 lon1 lat2 lon2 : R) :
  exists c,
    exact_distance (lat1, lon1) (Some lat2, Some lon2) = Some c /\
    exact_distance (lat2, lon2) (Some lat1, Some lon1) = Some c /\
    (0 <= c <= PI)%R.
Proof.
  eexists. split; [reflexivity | ].
  cbv [exact_distance np.multiply np.arcsin np.sqrt np.add np.square np.sin
       np.cos np.divide np.subtract np.clip fl sinf cosf asinf reals fst
       snd].
  split.
  - do 6 f_equal.
    replace ((lat1 - lat2) / 2)%R with (- ((lat2 - lat1) / 2))%R by lra.
    replace ((lon1 - lon2) / 2)%R with (- ((lon2 - lon1) / 2))%R by lra.
    rewrite !sin_neg. ring.
  - match goal with |- (0 <= 2 * asin ?x <= PI)%R =>
      pose proof (asin_bound x) as [_ H];
      assert (Hx : (0 <= x <= 1)%R)
    end.
    { split; [apply Rmin_glb; [apply Rmax_r | lra] | apply Rmin_r]. }
    pose proof (asin_nonneg _ Hx). lra.
Qed.

End OverTheReals.

(** * Day windows and overnight windows *)

Lemma time_le_antisym (a b : datetime.time) :
  time_le a b -> time_le b a -> a = b.
Proof.
  destruct a as [h m s us], b as [h' m' s' us'].
  unfold time_le, datetime.leb, datetime.compare. simpl.
  destruct (Nat.compare_spec h h'); destruct (Nat.compare_spec h' h);
    try lia; try discriminate.
  destruct (Nat.compare_spec m m'); destruct (Nat.compare_spec m' m);
    try lia; try discriminate.
  destruct (Nat.compare_spec s s'); destruct (Nat.compare_spec s' s);
    try lia; try discriminate.
  destruct (Nat.compare_spec us us'); destruct (Nat.compare_spec us' us);
    try lia; try discriminate.
  intros _ _. subst. reflexivity.
Qed.

Lemma time_lt_le (a b : datetime.time) : time_lt a b -> time_le a b.
Proof.
  unfold time_lt, time_le, datetime.ltb, datetime.leb.
  destruct (datetime.compare a b); congruence.
Qed.

(** X10: a day window and the overnight window with the same two hours
    swapped cover the whole day between them and overlap at the two
    boundary instants only: with [open < close], at every instant the row
    or the row with the hours exchanged is open, and both are open
    exactly when the instant is one of the two hours. *)
Theorem day_and_overnight_windows (row row' : restaurant)
  (now o c : datetime.time) :
  datetime.strptime_time (open_hour row) = Ok o ->
  datetime.strptime_time (close_hour row) = Ok c ->
  open_hour row' = close_hour row ->
  close_hour row' = open_hour row ->
  time_lt o c ->
  (is_open row now = Ok true \/ is_open row' now = Ok true) /\
  (is_open row now = Ok true /\ is_open row' now = Ok true
   <-> now = o \/ now = c).
Proof.
  intros Ho Hc Ho' Hc' Hlt.
  rewrite <- Ho' in Hc. rewrite <- Hc' in Ho.
  rewrite (is_open_parsed row now o c) by congruence.
  rewrite (is_open_parsed row' now c o Hc Ho).
  pose proof (time_lt_le o c Hlt) as Hle.
  rewrite (time_le_not_lt c o Hle). unfold time_lt in Hlt. rewrite Hlt.
  unfold datetime.geb.
  pose proof (time_le_total now o) as T1.
  pose proof (time_le_total now c) as T2.
  pose proof (time_le_antisym now o) as A1.
  pose proof (time_le_antisym now c) as A2.
  pose proof (time_le_refl o) as Ro. pose proof (time_le_refl c) as Rc.
  unfold time_le in *.
  destruct (datetime.leb o now) eqn:E1, (datetime.leb now c) eqn:E2,
           (datetime.leb c now) eqn:E3, (datetime.leb now o) eqn:E4;
    simpl; split;
    try (left; reflexivity); try (right; reflexivity);
    try (split; [intros [H1 H2]; try discriminate; auto
                | intros [->| ->]; split; congruence]);
    try (destruct T1; discriminate); try (destruct T2; discriminate).
Qed.

Lemma day_and_overnight_windows_witness :
  (is_open (hours "10:00:00" "18:00:00") noon = Ok true
   \/ is_open (hours "18:00:00" "10:00:00") noon = Ok true) /\
  (is_open (hours "10:00:00" "18:00:00") noon = Ok true
   /\ is_open (hours "18:00:00" "10:00:00") noon = Ok true
   <-> noon = datetime.mk_time 10 0 0 0 \/ noon = datetime.mk_time 18 0 0 0).
Proof.
  apply (day_and_overnight_windows (hours "10:00:00" "18:00:00")
           (hours "18:00:00" "10:00:00") noon
           (datetime.mk_time 10 0 0 0) (datetime.mk_time 18 0 0 0));
    reflexivity.
Defined.

(** * Paths and the names of the result files *)

Section Paths.

Lemma chars_app (a b : string) : list_ascii_of_string (a ++ b) = list_ascii_of_string a ++ list_ascii_of_string b.
Proof. induction a as [|c a IH]; simpl; congruence. Qed.

Lemma text_app (a b : list ascii) :
  string_of_list_ascii (a ++ b) = (string_of_list_ascii a ++ string_of_list_ascii b)%string.
Proof. induction a as [|c a IH]; simpl; congruence. Qed.

Lemma has_char_In (c : ascii) (s : string) :
  has_char c s = true <-> In c (list_ascii_of_string s).
Proof.
  induction s as [|x s IH]; simpl; [split; [discriminate | tauto] | ].
  rewrite orb_true_iff, IH, Ascii.eqb_eq. tauto.
Qed.

Lemma has_char_absent (c : ascii) (s : string) :
  has_char c s = false <-> ~ In c (list_ascii_of_string s).
Proof.
  rewrite <- has_char_In. destruct (has_char c s); split; congruence.
Qed.

Lemma rfind_absent (c : ascii) (l : list ascii) :
  ~ In c l -> ospath.rfind c l = None.
Proof.
  induction l as [|x l IH]; simpl; [reflexivity|].
  intros H. rewrite IH by tauto.
  destruct (Ascii.eqb_spec x c); [exfalso; tauto | reflexivity].
Qed.

Lemma rfind_last (c : ascii) (l1 l2 : list ascii) :
  ~ In c l2 -> ospath.rfind c (l1 ++ c :: l2) = Some (length l1).
Proof.
  intros H. induction l1 as [|x l1 IH]; simpl.
  - rewrite (rfind_absent c l2 H), Ascii.eqb_refl. reflexivity.
  - rewrite IH. reflexivity.
Qed.

(** The part of a list after the last occurrence of a character is free
    of it. *)
Lemma rfind_tail (c : ascii) (l : list ascii) :
  ~ In c (skipn (ospath.after (ospath.rfind c l)) l).
Proof.
  induction l as [|x l IH]; simpl; [tauto|].
  destruct (ospath.rfind c l) as [i|] eqn:E; simpl in *.
  - exact IH.
  - destruct (Ascii.eqb_spec x c) as [->|Hx]; simpl.
    + exact IH.
    + intros [H|H]; [exact (Hx H) | exact (IH H)].
Qed.

Lemma basename_no_sep (p : string) :
  has_char "/" (ospath.basename p) = false.
Proof.
  apply has_char_absent. unfold ospath.basename.
  rewrite list_ascii_of_string_of_list_ascii. apply rfind_tail.
Qed.

Lemma basename_plain (name : string) :
  has_char "/" name = false -> ospath.basename name = name.
Proof.
  intros H. apply has_char_absent in H. unfold ospath.basename.
  rewrite (rfind_absent _ _ H). simpl.
  apply string_of_list_ascii_of_string.
Qed.

Lemma skipn_past (A : Type) (l1 l2 : list A) (x : A) :
  skipn (S (length l1)) (l1 ++ x :: l2) = l2.
Proof. induction l1 as [|y l1 IH]; [reflexivity | exact IH]. Qed.

Lemma basename_join (dir name : string) :
  has_char "/" name = false ->
  ospath.basename (dir ++ "/" ++ name) = name.
Proof.
  intros H. apply has_char_absent in H. unfold ospath.basename.
  rewrite !chars_app. simpl.
  rewrite (rfind_last "/" (list_ascii_of_string dir)
             (list_ascii_of_string name) H).
  cbn [ospath.after]. rewrite skipn_past.
  apply string_of_list_ascii_of_string.
Qed.

Lemma splitext_root_no_sep (name : string) :
  has_char "/" name = false ->
  has_char "/" (ospath.splitext_root name) = false.
Proof.
  intros H. unfold ospath.splitext_root.
  destruct (ospath.rfind "." (list_ascii_of_string name)) as [dot|]; [ | exact H ].
  destruct (_ && _); [ | exact H ].
  apply has_char_absent. apply has_char_absent in H.
  rewrite list_ascii_of_string_of_list_ascii.
  intros Hin. apply H. rewrite <- (firstn_skipn dot (list_ascii_of_string name)).
  apply in_or_app. left. exact Hin.
Qed.

Lemma has_char_app (c : ascii) (a b : string) :
  has_char c (a ++ b) = has_char c a || has_char c b.
Proof.
  induction a as [|x a IH]; simpl; [reflexivity|].
  rewrite IH. apply orb_assoc.
Qed.

Lemma length_app_string (a b : string) :
  String.length (a ++ b) = String.length a + String.length b.
Proof. induction a as [|x a IH]; simpl; congruence. Qed.

Lemma endswith_sep_split (a : string) :
  ospath.endswith_sep a = true ->
  exists a', a = (a' ++ "/")%string.
Proof.
  unfold ospath.endswith_sep. intros H.
  destruct (rev (list_ascii_of_string a)) as [|c l] eqn:E; [discriminate|].
  assert (c = "/"%char).
  { destruct c as [[] [] [] [] [] [] [] []]; try discriminate H.
    reflexivity. }
  subst c. exists (string_of_list_ascii (rev l)).
  rewrite <- (string_of_list_ascii_of_string a) at 1.
  rewrite <- (rev_involutive (list_ascii_of_string a)), E. simpl. apply text_app.
Qed.

End Paths.

(** X11: for a user file [dir/stem.ext], whatever the directory, the
    results file is named [stem_results.csv]: the directory and the last
    extension are dropped ([stem] and [ext] hold no ["/"], [ext] no
    ["."], and [stem] has a character other than a dot).  So user files
    that differ in their directory or extension only share one results
    file. *)
Theorem output_file_of_stem (dir stem ext : string) :
  has_char "/" stem = false ->
  has_char "/" ext = false ->
  has_char "." ext = false ->
  existsb (fun c => negb (Ascii.eqb c "."))
          (list_ascii_of_string stem) = true ->
  runner.output_file (dir ++ "/" ++ stem ++ "." ++ ext)
  = (stem ++ "_results.csv")%string /\
  runner.output_file (stem ++ "." ++ ext) = (stem ++ "_results.csv")%string.
Proof.
  intros Hs He Hd Hx.
  assert (Hname : has_char "/" (stem ++ "." ++ ext) = false).
  { rewrite !has_char_app, Hs, He. reflexivity. }
  assert (Hroot : ospath.splitext_root (stem ++ "." ++ ext) = stem).
  { unfold ospath.splitext_root.
    apply has_char_absent in Hname, Hd.
    rewrite (rfind_absent _ _ Hname). simpl ospath.after.
    rewrite !chars_app. simpl.
    rewrite (rfind_last "." _ _ Hd). simpl.
    rewrite Nat.sub_0_r, firstn_app, firstn_all, Nat.sub_diag. simpl.
    rewrite app_nil_r, Hx. apply string_of_list_ascii_of_string. }
  unfold runner.output_file.
  rewrite (basename_join dir _ Hname), (basename_plain _ Hname), Hroot.
  split; reflexivity.
Qed.

Lemma output_file_of_stem_witness :
  runner.output_file ("data/input" ++ "/" ++ "users_1_10" ++ "." ++ "csv")
  = ("users_1_10" ++ "_results.csv")%string /\
  runner.output_file ("users_1_10" ++ "." ++ "csv")
  = ("users_1_10" ++ "_results.csv")%string.
Proof.
  apply (output_file_of_stem "data/input" "users_1_10" "csv");
    reflexivity.
Defined.

Lemma append_assoc (a b c : string) :
  ((a ++ b) ++ c)%string = (a ++ (b ++ c))%string.
Proof. induction a as [|x a IH]; simpl; congruence. Qed.

Lemma output_file_length (user_file : string) :
  12 <= String.length (runner.output_file user_file).
Proof.
  unfold runner.output_file. rewrite length_app_string. simpl. lia.
Qed.

(** X12: the name of a results file never holds a ["/"] and is never the
    text ["None"] that marks a missing results file in the benchmark log;
    joined to the output directory it names a file directly inside it,
    whose [basename] is the recorded name again. *)
Theorem output_file_inside_output_dir (user_file out : string) :
  has_char "/" (runner.output_file user_file) = false /\
  runner.output_file user_file <> "None"%string /\
  ospath.basename (ospath.join out (runner.output_file user_file))
  = runner.output_file user_file.
Proof.
  assert (Hn : has_char "/" (runner.output_file user_file) = false).
  { unfold runner.output_file. rewrite has_char_app.
    rewrite (splitext_root_no_sep _ (basename_no_sep user_file)).
    reflexivity. }
  pose proof (output_file_length user_file) as Hlen.
  split; [exact Hn | ]. split.
  - intros H. rewrite H in Hlen. simpl in Hlen. lia.
  - unfold ospath.join.
    destruct (runner.output_file user_file) as [|c name] eqn:E;
      [simpl in Hlen; lia | ].
    assert (Hc : c <> "/"%char).
    { intros ->. simpl in Hn. discriminate Hn. }
    assert (Hj : forall (X : Type) (x y : X),
               match c with "/"%char => x | _ => y end = y).
    { intros X x y.
      destruct c as [[] [] [] [] [] [] [] []]; try reflexivity.
      contradiction Hc. reflexivity. }
    rewrite Hj.
    destruct out as [|o out']; [apply basename_plain; exact Hn | ].
    destruct (ospath.endswith_sep (String o out')) eqn:Es.
    + apply endswith_sep_split in Es as [a' ->].
      rewrite append_assoc. apply basename_join. exact Hn.
    + apply basename_join. exact Hn.
Qed.

(** * The batch runner *)

Lemma find_returns_frame {m : arithmetic}
  (static_time : string) (users : list user)
  (rs : list restaurant) (df : DataFrame) :
  returned (find_available_restaurants static_time users rs) = Ok df ->
  exists now,
    datetime.strptime_time (Str static_time) = Ok now /\
    ((open_frame now rs = [] /\ df = mk_frame [] []) \/
     (open_frame now rs <> [] /\
      df = mk_frame result_columns
             (map (user_row (open_frame now rs)) users))).
Proof.
  intros H.
  destruct (datetime.strptime_time (Str static_time)) as [now|e] eqn:E.
  - exists now. split; [reflexivity | ].
    rewrite (run_returns _ now users rs E) in H. injection H as <-.
    destruct (open_frame now rs); [left | right]; split;
      try reflexivity; discriminate.
  - rewrite (find_unparsed _ users rs e E) in H. discriminate H.
Qed.

Lemma count_sum_reached {m : arithmetic}
  (now : datetime.time) (users : list user)
  (rs : list restaurant) :
  runner.count_sum
    (mk_frame result_columns (map (user_row (open_frame now rs)) users))
  = list_sum (map (fun u => length (filter (within_reach now rs u) rs)) users).
Proof.
  unfold runner.count_sum. cbn [rows].
  induction users as [|u users IH]; [reflexivity|].
  cbn [map fold_right]. rewrite IH, user_row_reached. reflexivity.
Qed.

Lemma list_sum_bound (A : Type) (f : A -> nat) (l : list A) (b : nat) :
  (forall x, f x <= b) -> list_sum (map f l) <= length l * b.
Proof.
  intros H. induction l as [|x l IH]; simpl; [lia|].
  pose proof (H x). lia.
Qed.

Lemma find_raises_unparsed {m : arithmetic}
  (static_time : string) (users : list user)
  (rs : list restaurant) (e : exn) :
  datetime.strptime_time (Str static_time) = Raise e ->
  find_available_restaurants static_time users rs
  = mk_outcome [] (Raise ValueError)
  /\ e = ValueError.
Proof.
  intros H. rewrite (find_unparsed _ users rs e H).
  unfold datetime.strptime_time in H.
  destruct (datetime.match_HMS _) as [[[h mi] sec]|];
    [destruct (sec <=? 59) | ]; split; congruence.
Qed.

Section Runner.

Context {m : arithmetic}.
Variable clock : nat -> R.
Variable rss : nat -> R.
Variable round : R -> nat -> R.
Variable show : R -> string.

(** X13: when the loop body returns for a user file, it has appended one
    record to the runner: the base name of the file, the number of its
    users, as matched rows that number or zero, and as total matches the
    number of (user, restaurant) pairs within reach.  The results file is
    written exactly when there are matched rows, under the recorded name
    in the output directory; otherwise the record says ["None"] and no
    file is touched. *)
Theorem process_file_record (st st' : runner.state) (rs : list restaurant)
  (user_file : string) :
  runner.process_file clock rss round st (runner.RestaurantTable rs)
    user_file = (st', None) ->
  exists users now rec,
    runner.fs st user_file = Some (runner.UserTable users) /\
    datetime.strptime_time (Str (runner.processor (runner.self st)))
    = Ok now /\
    runner.benchmark_records (runner.self st')
    = runner.benchmark_records (runner.self st) ++ [rec] /\
    runner.User_File rec = ospath.basename user_file /\
    runner.User_Count rec = length users /\
    runner.Total_Matches rec
    = list_sum (map (fun u => length (filter (within_reach now rs u) rs))
                    users) /\
    runner.Total_Matches rec <= runner.Matched_Rows rec * length rs /\
    ((runner.Matched_Rows rec = 0 /\
      runner.Output_File rec = "None"%string /\
      runner.fs st' = runner.fs st)
     \/
     (runner.Matched_Rows rec = length users /\
      users <> [] /\
      runner.Output_File rec = runner.output_file user_file /\
      exists df,
        runner.fs st'
          (ospath.join (runner.output_dir (runner.self st))
             (runner.Output_File rec))
        = Some (runner.ResultTable df) /\
        returned (find_available_restaurants
                    (runner.processor (runner.self st)) users rs)
        = Ok df)).
Proof.
  unfold runner.process_file. cbn [runner.fs runner.probe runner.tick
    runner.self runner.printed runner.ticks runner.probes].
  destruct (runner.fs st user_file) as [[users| | |]|];
    try (intros H; discriminate H).
  destruct (returned (find_available_restaurants
                        (runner.processor (runner.self st)) users rs))
    as [df|e] eqn:Hret; [ | intros H; discriminate H ].
  destruct (find_returns_frame _ users rs df Hret) as [now [Hnow Hdf]].
  intros H. injection H as <-.
  exists users, now. eexists. split; [reflexivity | ].
  split; [exact Hnow | ]. split; [reflexivity | ].
  cbn [runner.User_File runner.User_Count runner.Total_Matches
       runner.Matched_Rows runner.Output_File runner.fs runner.self
       runner.output_dir].
  split; [reflexivity | ]. split; [reflexivity | ].
  destruct Hdf as [[Hempty ->]|[Hopen ->]].
  - cbn [runner.empty rows columns negb length].
    assert (Hz : forall u, filter (within_reach now rs u) rs = []).
    { intros u. rewrite <- open_frame_matched, Hempty. reflexivity. }
    assert (Hsum : forall l,
              list_sum (map (fun u => length (filter (within_reach now rs u) rs))
                            l) = 0).
    { induction l as [|u l IH]; [reflexivity|].
      cbn [map list_sum fold_right]. rewrite Hz. exact IH. }
    rewrite Hsum. split; [reflexivity | ].
    split; [lia | ]. left. repeat split.
  - destruct users as [|u users].
    + cbn [map runner.empty rows columns negb length list_sum].
      split; [reflexivity | ]. split; [lia | ]. left. repeat split.
    + assert (Hne : runner.empty
                      (mk_frame result_columns
                         (map (user_row (open_frame now rs)) (u :: users)))
                    = false) by reflexivity.
      rewrite Hne. cbn [negb rows].
      rewrite count_sum_reached, length_map.
      split; [reflexivity | ].
      split.
      { apply list_sum_bound. intros x. apply filter_length_le. }
      right. split; [reflexivity | ]. split; [discriminate | ].
      split; [reflexivity | ].
      eexists. split. 2: exact Hret.
      unfold runner.write. rewrite String.eqb_refl. reflexivity.
Qed.

Lemma process_file_self (st st' : runner.state) (rc : runner.content)
  (user_file : string) :
  runner.process_file clock rss round st rc user_file = (st', None) ->
  exists rec lines,
    runner.self st'
    = runner.mk_runner (runner.restaurant_file (runner.self st))
        (runner.output_dir (runner.self st))
        (runner.processor (runner.self st))
        (runner.benchmark_log (runner.self st))
        (runner.benchmark_records (runner.self st) ++ [rec]) /\
    runner.User_File rec = ospath.basename user_file /\
    runner.printed st' = runner.printed st ++ lines /\
    runner.ticks st' = 2 + runner.ticks st.
Proof.
  unfold runner.process_file. cbn [runner.fs runner.probe runner.tick
    runner.self runner.printed runner.ticks runner.probes].
  destruct (runner.fs st user_file) as [[users| | |]|];
    try (intros H; discriminate H).
  destruct rc as [|rs| |]; try (intros H; discriminate H).
  destruct (returned _) as [df|e]; [ | intros H; discriminate H ].
  intros H. injection H as <-. do 2 eexists.
  cbn [runner.self runner.printed runner.ticks].
  repeat split; reflexivity.
Qed.

Lemma process_files_self (files : list string) :
  forall (st st' : runner.state) (rc : runner.content),
    runner.process_files clock rss round st rc files = (st', None) ->
    exists new lines,
      runner.self st'
      = runner.mk_runner (runner.restaurant_file (runner.self st))
          (runner.output_dir (runner.self st))
          (runner.processor (runner.self st))
          (runner.benchmark_log (runner.self st))
          (runner.benchmark_records (runner.self st) ++ new) /\
      map runner.User_File new = map ospath.basename files /\
      runner.printed st' = runner.printed st ++ lines /\
      runner.ticks st' = 2 * length files + runner.ticks st.
Proof.
  induction files as [|f files IH]; intros st st' rc H.
  - injection H as <-. exists [], []. rewrite !app_nil_r.
    destruct st as [[]]; repeat split; reflexivity.
  - cbn [runner.process_files] in H.
    destruct (runner.process_file clock rss round st rc f)
      as [st1 [e|]] eqn:E; [discriminate H | ].
    destruct (process_file_self st st1 rc f E)
      as [rec [lines1 [Hs1 [Hf [Hp1 Ht1]]]]].
    destruct (IH st1 st' rc H) as [new [lines [Hs [Hn [Hp Ht]]]]].
    exists (rec :: new), (lines1 ++ lines).
    rewrite Hs, Hs1, Hp, Hp1, Ht, Ht1.
    cbn [runner.restaurant_file runner.output_dir runner.processor
         runner.benchmark_log runner.benchmark_records map length].
    rewrite <- !app_assoc, Hf, Hn. repeat split; try reflexivity.
    generalize (runner.ticks st) (length files). clear. intros a b. lia.
Qed.

(** X14: a run that returns has appended to the runner one record per
    user file, in the order of the files and under their base names, and
    has written to the benchmark log the records of the runner, those of
    earlier runs included: the runner never clears its records.  It ends
    by printing the total time and the path of the log. *)
Theorem run_appends_records (st st' : runner.state) (files : list string) :
  runner.run clock rss round show st files = (st', None) ->
  exists new lines total,
    runner.benchmark_records (runner.self st')
    = runner.benchmark_records (runner.self st) ++ new /\
    map runner.User_File new = map ospath.basename files /\
    runner.benchmark_log (runner.self st')
    = runner.benchmark_log (runner.self st) /\
    runner.fs st' (runner.benchmark_log (runner.self st))
    = Some (runner.BenchmarkTable
              (runner.benchmark_records (runner.self st) ++ new)) /\
    runner.printed st'
    = runner.printed st ++ lines
      ++ [(String (ascii_of_nat 10) "Total time: " ++ total ++ "s")%string;
          ("Benchmark log saved to: "
           ++ runner.benchmark_log (runner.self st))%string] /\
    runner.ticks st' = 2 * length files + 2 + runner.ticks st.
Proof.
  unfold runner.run. cbn [runner.tick runner.fs runner.self].
  destruct (runner.fs st _) as [rc|]; [ | intros H; discriminate H ].
  destruct (runner.process_files clock rss round _ rc files)
    as [st1 [e|]] eqn:E; [intros H; discriminate H | ].
  destruct (process_files_self files _ st1 rc E)
    as [new [lines [Hs [Hn [Hp Ht]]]]].
  cbn [runner.self runner.printed runner.ticks] in Hs, Hp, Ht.
  intros H. injection H as <-.
  exists new, lines. eexists.
  cbn [runner.self runner.fs runner.printed runner.ticks].
  rewrite Hs, Hp, Ht.
  cbn [runner.benchmark_records runner.benchmark_log].
  split; [reflexivity | ]. split; [exact Hn | ]. split; [reflexivity | ].
  split; [unfold runner.write; rewrite String.eqb_refl; reflexivity | ].
  split; [rewrite <- app_assoc; reflexivity | ].
  unfold runner.tick. cbn [runner.ticks].
  generalize (runner.ticks st) (length files). clear. intros a b. lia.
Qed.

Lemma process_files_app (pre rest : list string) :
  forall (st st1 : runner.state) (rc : runner.content),
    runner.process_files clock rss round st rc pre = (st1, None) ->
    runner.process_files clock rss round st rc (pre ++ rest)
    = runner.process_files clock rss round st1 rc rest.
Proof.
  induction pre as [|f pre IH]; intros st st1 rc H.
  - injection H as <-. reflexivity.
  - cbn [runner.process_files app] in *.
    destruct (runner.process_file clock rss round st rc f)
      as [st2 [e|]]; [discriminate H | ].
    apply IH. exact H.
Qed.

(** X15: a user file that does not exist aborts the run with
    [FileNotFoundError] when its turn comes: the files before it have been
    processed, their results files and records stay as they are, the
    files after it are not read, and neither the benchmark log nor the
    two closing lines are written. *)
Theorem run_missing_user_file (st st1 : runner.state)
  (rc : runner.content) (pre post : list string) (user_file : string) :
  runner.fs st (runner.restaurant_file (runner.self st)) = Some rc ->
  runner.process_files clock rss round (runner.tick st) rc pre
  = (st1, None) ->
  runner.fs st1 user_file = None ->
  runner.run clock rss round show st (pre ++ user_file :: post)
  = (runner.probe (runner.tick st1),
     Some (runner.FileNotFoundError user_file)).
Proof.
  intros Hrc Hpre Hmiss. unfold runner.run.
  cbn [runner.tick runner.fs runner.self] in *. rewrite Hrc.
  rewrite (process_files_app pre (user_file :: post) _ st1 rc Hpre).
  cbn [runner.process_files]. unfold runner.process_file.
  cbn [runner.fs runner.probe runner.tick]. rewrite Hmiss. reflexivity.
Qed.

(** X16: a [static_time] that does not parse makes the run fail at the
    first user file, with the [ValueError] of the processor, after the
    restaurant file and that user file have been read: nothing is printed
    on the standard output, no file is written and no record is kept. *)
Theorem run_invalid_static_time (st : runner.state)
  (rs : list restaurant) (users : list user) (user_file : string)
  (rest : list string) (e : exn) :
  runner.fs st (runner.restaurant_file (runner.self st))
  = Some (runner.RestaurantTable rs) ->
  runner.fs st user_file = Some (runner.UserTable users) ->
  datetime.strptime_time (Str (runner.processor (runner.self st)))
  = Raise e ->
  exists st',
    runner.run clock rss round show st (user_file :: rest)
    = (st', Some (runner.ProcessorError ValueError)) /\
    runner.fs st' = runner.fs st /\
    runner.self st' = runner.self st /\
    runner.printed st' = runner.printed st.
Proof.
  intros Hrc Hu He. unfold runner.run.
  cbn [runner.tick runner.fs runner.self]. rewrite Hrc.
  cbn [runner.process_files]. unfold runner.process_file.
  cbn [runner.fs runner.probe runner.tick runner.self runner.printed
       runner.ticks runner.probes].
  rewrite Hu.
  destruct (find_raises_unparsed (runner.processor (runner.self st))
              users rs e He) as [Hout ->].
  rewrite Hout. cbn [returned stdout].
  eexists. split; [reflexivity | ].
  cbn [runner.fs runner.self runner.printed].
  rewrite app_nil_r. repeat split.
Qed.

End Runner.

Section ProcessFileRecordWitnessAt.

#[local] Existing Instance ieee_single.

Lemma process_file_record_witness :
  exists users now rec,
    runner.fs (demo_state "12:00:00") "in/users.csv"
    = Some (runner.UserTable users) /\
    datetime.strptime_time
      (Str (runner.processor (runner.self (demo_state "12:00:00"))))
    = Ok now /\
    runner.benchmark_records
      (runner.self
         (fst (runner.process_file demo_clock demo_rss demo_round
                 (demo_state "12:00:00")
                 (runner.RestaurantTable [restaurant_1 2]) "in/users.csv")))
    = runner.benchmark_records (runner.self (demo_state "12:00:00"))
      ++ [rec] /\
    runner.User_File rec = ospath.basename "in/users.csv" /\
    runner.User_Count rec = length users /\
    runner.Total_Matches rec
    = list_sum (map (fun u =>
                       length (filter (within_reach now [restaurant_1 2] u)
                                      [restaurant_1 2]))
                    users) /\
    runner.Total_Matches rec
    <= runner.Matched_Rows rec * length [restaurant_1 2] /\
    ((runner.Matched_Rows rec = 0 /\
      runner.Output_File rec = "None"%string /\
      runner.fs
        (fst (runner.process_file demo_clock demo_rss demo_round
                (demo_state "12:00:00")
                (runner.RestaurantTable [restaurant_1 2]) "in/users.csv"))
      = runner.fs (demo_state "12:00:00"))
     \/
     (runner.Matched_Rows rec = length users /\
      users <> [] /\
      runner.Output_File rec = runner.output_file "in/users.csv" /\
      exists df,
        runner.fs
          (fst (runner.process_file demo_clock demo_rss demo_round
                  (demo_state "12:00:00")
                  (runner.RestaurantTable [restaurant_1 2]) "in/users.csv"))
          (ospath.join
             (runner.output_dir (runner.self (demo_state "12:00:00")))
             (runner.Output_File rec))
        = Some (runner.ResultTable df) /\
        returned (find_available_restaurants
                    (runner.processor (runner.self (demo_state "12:00:00")))
                    users [restaurant_1 2])
        = Ok df)).
Proof.
  apply (process_file_record demo_clock demo_rss demo_round
           (demo_state "12:00:00")
           (fst (runner.process_file demo_clock demo_rss demo_round
                   (demo_state "12:00:00")
                   (runner.RestaurantTable [restaurant_1 2]) "in/users.csv"))
           [restaurant_1 2] "in/users.csv").
  reflexivity.
Defined.

End ProcessFileRecordWitnessAt.

Section RunAppendsRecordsWitnessAt.

#[local] Existing Instance ieee_single.

Lemma run_appends_records_witness :
  exists new lines total,
    runner.benchmark_records
      (runner.self
         (fst (runner.run demo_clock demo_rss demo_round demo_show
                 (demo_state "12:00:00") ["in/users.csv"%string])))
    = runner.benchmark_records (runner.self (demo_state "12:00:00")) ++ new
    /\
    map runner.User_File new
    = map ospath.basename ["in/users.csv"%string] /\
    runner.benchmark_log
      (runner.self
         (fst (runner.run demo_clock demo_rss demo_round demo_show
                 (demo_state "12:00:00") ["in/users.csv"%string])))
    = runner.benchmark_log (runner.self (demo_state "12:00:00")) /\
    runner.fs
      (fst (runner.run demo_clock demo_rss demo_round demo_show
              (demo_state "12:00:00") ["in/users.csv"%string]))
      (runner.benchmark_log (runner.self (demo_state "12:00:00")))
    = Some (runner.BenchmarkTable
              (runner.benchmark_records (runner.self (demo_state "12:00:00"))
               ++ new)) /\
    runner.printed
      (fst (runner.run demo_clock demo_rss demo_round demo_show
              (demo_state "12:00:00") ["in/users.csv"%string]))
    = runner.printed (demo_state "12:00:00") ++ lines
      ++ [(String (ascii_of_nat 10) "Total time: " ++ total ++ "s")%string;
          ("Benchmark log saved to: "
           ++ runner.benchmark_log
                (runner.self (demo_state "12:00:00")))%string] /\
    runner.ticks
      (fst (runner.run demo_clock demo_rss demo_round demo_show
              (demo_state "12:00:00") ["in/users.csv"%string]))
    = 2 * length ["in/users.csv"%string] + 2
      + runner.ticks (demo_state "12:00:00").
Proof.
  apply (run_appends_records demo_clock demo_rss demo_round demo_show
           (demo_state "12:00:00")).
  reflexivity.
Defined.

End RunAppendsRecordsWitnessAt.

Section RunMissingUserFileWitnessAt.

#[local] Existing Instance ieee_single.

Lemma run_missing_user_file_witness :
  runner.run demo_clock demo_rss demo_round demo_show
    (demo_state "12:00:00")
    (["in/users.csv"%string] ++ "in/missing.csv"%string :: ["in/users.csv"%string])
  = (runner.probe
       (runner.tick
          (fst (runner.process_files demo_clock demo_rss demo_round
                  (runner.tick (demo_state "12:00:00"))
                  (runner.RestaurantTable [restaurant_1 2])
                  ["in/users.csv"%string]))),
     Some (runner.FileNotFoundError "in/missing.csv")).
Proof.
  apply (run_missing_user_file demo_clock demo_rss demo_round demo_show
           (demo_state "12:00:00")
           (fst (runner.process_files demo_clock demo_rss demo_round
                   (runner.tick (demo_state "12:00:00"))
                   (runner.RestaurantTable [restaurant_1 2])
                   ["in/users.csv"%string]))
           (runner.RestaurantTable [restaurant_1 2])
           ["in/users.csv"%string] ["in/users.csv"%string] "in/missing.csv").
  - reflexivity.
  - reflexivity.
  - reflexivity.
Defined.

End RunMissingUserFileWitnessAt.

Section RunInvalidStaticTimeWitnessAt.

#[local] Existing Instance ieee_single.

Lemma run_invalid_static_time_witness :
  exists st',
    runner.run demo_clock demo_rss demo_round demo_show
      (demo_state "midday") ("in/users.csv"%string :: ["in/users.csv"%string])
    = (st', Some (runner.ProcessorError ValueError)) /\
    runner.fs st' = runner.fs (demo_state "midday") /\
    runner.self st' = runner.self (demo_state "midday") /\
    runner.printed st' = runner.printed (demo_state "midday").
Proof.
  apply (run_invalid_static_time demo_clock demo_rss demo_round demo_show
           (demo_state "midday") [restaurant_1 2] [user_1] "in/users.csv"
           ["in/users.csv"%string] ValueError); reflexivity.
Defined.

End RunInvalidStaticTimeWitnessAt.
